(** * SPConverter: the conversion pipeline, embedded and verified

    The development follows the two translation units of the program:
    - [main.cpp]: [getOutPath], [hasAllowedExtension], [getFilePaths],
      [getProgressStr], [processFile], [processDirectory];
    - [converter.cpp]: [copyFile], [Converter::convert].

    The program is compiled with [g++ -std=c++17] for a POSIX system
    (see the Makefile), so [std::filesystem::path] is modelled in its
    generic POSIX format: the only separator is ["/"], there is no
    root name.  libsndfile and the r8brain resampler are libraries the
    program links against; they are interfaces here ([SndFile],
    [Resampler]).  The file system, the console and the record of the
    calls made to the two libraries form the [World] that every
    operation threads through.  The file system has no symbolic links,
    and its directories can always be entered and created.  The
    exception of the one allocation of the program, and a missing
    command-line argument, are in the definitions named [_run]. *)

From Stdlib Require Import ZArith Ascii String List Bool Lia.
From Stdlib.Strings Require Import Byte.
From stdpp Require Import base option list strings gmap pretty.

Local Open Scope string_scope.
Local Open Scope Z_scope.
Local Open Scope list_scope.

(** ** std::filesystem::path, lexical part *)

Module fs.

Definition chars : string -> list ascii := list_ascii_of_string.
Definition str : list ascii -> string := string_of_list_ascii.

Definition is_sep (c : ascii) : bool := Ascii.eqb c "/".
Definition is_dot (c : ascii) : bool := Ascii.eqb c ".".
Definition not_sep (c : ascii) : bool := negb (is_sep c).
Definition not_dot (c : ascii) : bool := negb (is_dot c).

Fixpoint take_while {A} (f : A -> bool) (l : list A) : list A :=
  match l with
  | [] => []
  | x :: l' => if f x then x :: take_while f l' else []
  end.

Fixpoint drop_while {A} (f : A -> bool) (l : list A) : list A :=
  match l with
  | [] => []
  | x :: l' => if f x then drop_while f l' else l
  end.

(** [path::filename()]: what follows the last separator; empty when
    the path ends with a separator. *)
Definition filename_l (p : list ascii) : list ascii :=
  rev (take_while not_sep (rev p)).

(** [path::has_relative_path()]: something other than separators. *)
Definition has_relative_path_l (p : list ascii) : bool :=
  negb (forallb is_sep p).

(** [path::parent_path()]: the path itself when it has no relative
    part; otherwise everything up to the end of the element before the
    last one (the root directory ["/"] when that element is the
    root). *)
Definition parent_path_l (p : list ascii) : list ascii :=
  if has_relative_path_l p then
    let r1 := drop_while not_sep (rev p) in
    match drop_while is_sep r1 with
    | [] => match r1 with [] => [] | _ :: _ => ["/"%char] end
    | c :: r2 => rev (c :: r2)
    end
  else p.

(** [path::stem()] and [path::extension()] of a file name: the name is
    split at its last period, unless the name is ["."] or [".."], has
    no period, or has its only period in first position. *)
Definition special_name (f : list ascii) : bool :=
  bool_decide (f = ["."%char]) || bool_decide (f = ["."%char; "."%char]).

Definition split_ext (f : list ascii) : list ascii * list ascii :=
  if special_name f then (f, [])
  else
    let r := rev f in
    match drop_while not_dot r with
    | [] => (f, [])
    | [_] => (f, [])
    | d :: s => (rev s, d :: rev (take_while not_dot r))
    end.

Definition is_absolute_l (p : list ascii) : bool :=
  match p with
  | c :: _ => is_sep c
  | [] => false
  end.

Definition has_filename_l (p : list ascii) : bool :=
  match filename_l p with [] => false | _ :: _ => true end.

(** [operator/]: an absolute right operand replaces the left one;
    otherwise a separator is inserted when the left operand ends with
    a file name. *)
Definition append_l (p q : list ascii) : list ascii :=
  if is_absolute_l q then q
  else if has_filename_l p then p ++ "/"%char :: q
  else p ++ q.

Definition filename (p : string) : string := str (filename_l (chars p)).
Definition parent_path (p : string) : string := str (parent_path_l (chars p)).
Definition stem (p : string) : string :=
  str (fst (split_ext (filename_l (chars p)))).
Definition extension (p : string) : string :=
  str (snd (split_ext (filename_l (chars p)))).
Definition append (p q : string) : string := str (append_l (chars p) (chars q)).

(** *** Splitting into elements, for [relative] *)

(** The file names of a path, in order; separators are dropped. *)
Fixpoint elements_from (cur : list ascii) (p : list ascii) : list string :=
  match p with
  | [] => match cur with [] => [] | _ => [str (rev cur)] end
  | c :: p' =>
      if is_sep c then
        match cur with
        | [] => elements_from [] p'
        | _ => str (rev cur) :: elements_from [] p'
        end
      else elements_from (c :: cur) p'
  end.

Definition elements (p : string) : list string := elements_from [] (chars p).

(** [lexically_normal] on the elements of an absolute path: ["."] is
    dropped, [".."] removes the element before it (and is dropped at
    the root). *)
Fixpoint normal_from (acc : list string) (l : list string) : list string :=
  match l with
  | [] => rev acc
  | e :: l' =>
      if String.eqb e "." then normal_from acc l'
      else if String.eqb e ".." then normal_from (tail acc) l'
      else normal_from (e :: acc) l'
  end.

(** Removal of the common prefix of two element lists
    (the [std::mismatch] of [lexically_relative]). *)
Fixpoint mismatch (a b : list string) : list string * list string :=
  match a, b with
  | x :: a', y :: b' => if String.eqb x y then mismatch a' b' else (a, b)
  | _, _ => (a, b)
  end.

Fixpoint join (l : list string) : string :=
  match l with
  | [] => ""
  | [x] => x
  | x :: l' => x +:+ "/" +:+ join l'
  end.

(** [lexically_relative] for two absolute, normal paths given by their
    elements: as many [".."] as [base] has elements left, followed by
    what is left of [p]; ["."] when nothing is left on either side. *)
Definition lexically_relative_e (p base : list string) : string :=
  let '(a, b) := mismatch p base in
  match a, b with
  | [], [] => "."
  | _, _ => join (repeat ".." (length b) ++ a)
  end.

(** [fs::relative(p, base)] is
    [weakly_canonical(p).lexically_relative(weakly_canonical(base))].
    [weakly_canonical] is taken on a file system without symbolic
    links, where it makes the path absolute from the current
    directory [cwd] and normalises it. *)
Definition weakly_canonical_e (cwd p : string) : list string :=
  normal_from []
    (if is_absolute_l (chars p) then elements p
     else elements cwd ++ elements p).

Definition relative (cwd p base : string) : string :=
  lexically_relative_e (weakly_canonical_e cwd p) (weakly_canonical_e cwd base).

End fs.


(** ** Machine integers of the program *)

(** [sf_count_t] is a signed 64-bit integer and [size_t] an unsigned
    64-bit one; a conversion between them wraps around. *)
Definition to_int64 (z : Z) : Z := (z + 2 ^ 63) mod 2 ^ 64 - 2 ^ 63.
Definition to_size_t (z : Z) : Z := z mod 2 ^ 64.

(** ** libsndfile: descriptors, constants, interface *)

(** [SF_INFO] of sndfile.h. *)
Record SF_INFO := mkSF_INFO {
  frames : Z;
  samplerate : Z;
  channels : Z;
  format : Z;
  sections : Z;
  seekable : Z
}.

(** Constants of sndfile.h (the header of libsndfile, which the program
    includes through converter.h). *)
Definition SF_FORMAT_WAV : Z := 0x010000.
Definition SF_FORMAT_FLAC : Z := 0x170000.
Definition SF_FORMAT_PCM_16 : Z := 0x0002.
Definition SF_FORMAT_PCM_24 : Z := 0x0003.
Definition SF_FORMAT_FLOAT : Z := 0x0006.
Definition SF_FORMAT_SUBMASK : Z := 0x0000FFFF.
Definition SF_FORMAT_TYPEMASK : Z := 0x0FFF0000.
Definition SFM_READ : Z := 0x10.
Definition SFM_WRITE : Z := 0x20.

Definition set_samplerate (v : Z) (i : SF_INFO) : SF_INFO :=
  mkSF_INFO (frames i) v (channels i) (format i) (sections i) (seekable i).
Definition set_channels (v : Z) (i : SF_INFO) : SF_INFO :=
  mkSF_INFO (frames i) (samplerate i) v (format i) (sections i) (seekable i).
Definition set_format (v : Z) (i : SF_INFO) : SF_INFO :=
  mkSF_INFO (frames i) (samplerate i) (channels i) v (sections i) (seekable i).

(** A local [SF_INFO sfinfo;] before [sf_open] has filled it. *)
Definition sfinfo_uninit : SF_INFO := mkSF_INFO 0 0 0 0 0 0.

(** The container library, as the program consumes it: what
    [sf_open(.., SFM_READ, ..)] finds in the bytes of a file (nothing
    when they are not a recognised container), the items
    [sf_readf_double] delivers for a request of so many frames, whether
    [sf_write_double] takes a request of so many items on a file of a
    given descriptor, and the bytes a descriptor and a sequence of items
    are stored as. *)
Class SndFile (sample : Type) := {
  sf_parse : list byte -> option SF_INFO;
  sf_decode : list byte -> Z -> list sample;
  sf_takes : SF_INFO -> Z -> bool;
  sf_encode : SF_INFO -> list sample -> list byte
}.

(** The resampler library: what [CDSPResampler16(Src, Dst, MaxInLen)
    ::process(ip, l, op)] leaves in the [l] items at [ip]. *)
Class Resampler (sample : Type) := {
  r8b_process : Z -> Z -> Z -> list sample -> list sample
}.

(** ** The world the program runs in *)

(** Calls to the two libraries, in the order they are made. *)
Inductive Call :=
| call_sf_open (path : string) (mode : Z) (sfinfo : SF_INFO)
| call_sf_readf_double (path : string) (frames : Z)
| call_sf_write_double (path : option string) (items : Z)
| call_sf_close (path : option string)
| call_CDSPResampler16 (SrcSampleRate DstSampleRate aMaxInLen : Z)
| call_process (l : Z).

Record World := mkWorld {
  files : gmap string (list byte);       (* regular files and their bytes *)
  directories : gset string;
  listing : string -> bool -> list string;
    (* the entries [directory_iterator] (false) and
       [recursive_directory_iterator] (true) produce, in their order *)
  current_path : string;
  deny_open : gset string;               (* cannot be opened for writing *)
  deny_write : gset string;              (* opened, but writes fail *)
  cout : list string;
  cerr : list string;
  calls : list Call;
  others : gset string;
    (* what exists and is neither a regular file nor a directory:
       sockets, FIFOs, devices *)
  heap : Z                               (* bytes [operator new] can provide *)
}.

Definition set_files (f : gmap string (list byte)) (w : World) : World :=
  mkWorld f (directories w) (listing w) (current_path w) (deny_open w)
          (deny_write w) (cout w) (cerr w) (calls w) (others w) (heap w).
Definition set_directories (d : gset string) (w : World) : World :=
  mkWorld (files w) d (listing w) (current_path w) (deny_open w)
          (deny_write w) (cout w) (cerr w) (calls w) (others w) (heap w).
Definition put_cout (line : string) (w : World) : World :=
  mkWorld (files w) (directories w) (listing w) (current_path w) (deny_open w)
          (deny_write w) (cout w ++ [line]) (cerr w) (calls w) (others w) (heap w).
Definition put_cerr (line : string) (w : World) : World :=
  mkWorld (files w) (directories w) (listing w) (current_path w) (deny_open w)
          (deny_write w) (cout w) (cerr w ++ [line]) (calls w) (others w) (heap w).
Definition record (c : Call) (w : World) : World :=
  mkWorld (files w) (directories w) (listing w) (current_path w) (deny_open w)
          (deny_write w) (cout w) (cerr w) (calls w ++ [c]) (others w) (heap w).

Definition is_regular_file (w : World) (p : string) : bool :=
  bool_decide (is_Some (files w !! p)).
Definition is_directory (w : World) (p : string) : bool :=
  bool_decide (p ∈ directories w).
(** [fs::exists]: the path names something, of whatever kind. *)
Definition exists_ (w : World) (p : string) : bool :=
  is_regular_file w p || is_directory w p || bool_decide (p ∈ others w).

(** [fs::create_directory]. *)
Definition create_directory (p : string) (w : World) : World :=
  set_directories ({[p]} ∪ directories w) w.

(** [fs::create_directories]: the directory and every missing parent. *)
Fixpoint ancestors (fuel : nat) (p : string) : list string :=
  match fuel with
  | O => []
  | S k => if String.eqb p "" then [] else p :: ancestors k (fs.parent_path p)
  end.

Definition create_directories (p : string) (w : World) : World :=
  set_directories (list_to_set (ancestors (S (String.length p)) p) ∪ directories w) w.

(** ** converter.cpp *)

(** The members of [class Converter] (converter.h). *)
Record Converter := mkConverter {
  subformat : Z;
  rFrames : Z;
  wFrames : Z
}.

Definition set_subformat (v : Z) (c : Converter) : Converter :=
  mkConverter v (rFrames c) (wFrames c).
Definition set_rFrames (v : Z) (c : Converter) : Converter :=
  mkConverter (subformat c) v (wFrames c).
Definition set_wFrames (v : Z) (c : Converter) : Converter :=
  mkConverter (subformat c) (rFrames c) v.

(** [std::ifstream(path).is_open()]: a regular file is opened, and so
    is a directory (the [open] succeeds; it is the reads that fail).
    The other kinds are taken not to open, as a socket does not. *)
Definition ifstream_is_open (w : World) (path : string) : bool :=
  is_regular_file w path || is_directory w path.

(** [copyFile]: both streams are opened inside the [try]; either failure
    is thrown, caught and printed.  Opening the destination truncates
    it; [destinationFile << sourceFile.rdbuf()] then moves what the
    source holds at that moment; nothing comes out of a source that is
    a directory, and that, like a failed write, only sets the state of
    the stream, which nothing looks at. *)
Definition copyFile (sourcePath destinationPath : string) (w : World) : World :=
  if ifstream_is_open w sourcePath then
    if decide (destinationPath ∈ deny_open w) then
      put_cerr "Error copying file: Failed to open destination file" w
    else
      let w := set_files (<[destinationPath := []]> (files w)) w in
      match files w !! sourcePath with
      | Some bytes =>
          if decide (destinationPath ∈ deny_write w) then w
          else set_files (<[destinationPath := bytes]> (files w)) w
      | None => w
      end
  else put_cerr "Error copying file: Failed to open source file" w.

Section Engine.

Context {sample : Type} (zero : sample).
Context {sndfile : SndFile sample} {r8b : Resampler sample}.

(** An open [SNDFILE*]; a null pointer is [None]. *)
Record SNDFILE := mkSNDFILE {
  sf_path : string;
  sf_mode : Z;
  sf_info : SF_INFO;
  sf_written : list sample
}.

(** [src] stored at the start of the buffer [buf], whose size does not
    change. *)
Definition overwrite (src buf : list sample) : list sample :=
  firstn (length buf) (src ++ skipn (length src) buf).

(** [sf_open]: for reading, the descriptor is filled from the file; for
    writing, the file is created (or truncated) with the descriptor
    it is given. *)
Definition sf_open (path : string) (mode : Z) (sfinfo : SF_INFO) (w : World)
  : option SNDFILE * SF_INFO * World :=
  let w := record (call_sf_open path mode sfinfo) w in
  if mode =? SFM_READ then
    match files w !! path ≫= sf_parse with
    | Some info => (Some (mkSNDFILE path mode info []), info, w)
    | None => (None, sfinfo, w)
    end
  else
    if decide (path ∈ deny_open w) then (None, sfinfo, w)
    else (Some (mkSNDFILE path mode sfinfo []), sfinfo,
          set_files (<[path := sf_encode sfinfo []]> (files w)) w).

(** [sf_readf_double(file, ptr, frames)]: the items read are stored at
    [ptr]; the result is the number of frames read, the items read
    divided by the channels of the file. *)
Definition sf_readf_double (file : SNDFILE) (ptr : list sample) (n : Z) (w : World)
  : Z * list sample * World :=
  let w := record (call_sf_readf_double (sf_path file) n) w in
  let items :=
    match files w !! sf_path file with
    | Some bytes => sf_decode bytes n
    | None => []
    end in
  (Z.of_nat (length items) / channels (sf_info file), overwrite items ptr, w).

(** [sf_write_double(file, ptr, items)]: nothing is written through a
    null pointer, when the library refuses the request or when the
    write fails; the result is the number of items written. *)
Definition sf_write_double (file : option SNDFILE) (ptr : list sample) (items : Z)
    (w : World) : Z * option SNDFILE * World :=
  let w := record (call_sf_write_double (sf_path <$> file) items) w in
  match file with
  | None => (0, None, w)
  | Some f =>
      if bool_decide (sf_path f ∈ deny_write w)
         || negb (sf_takes (sf_info f) items)
      then (0, file, w)
      else
        let new := firstn (Z.to_nat items) ptr in
        let all := sf_written f ++ new in
        (Z.of_nat (length new),
         Some (mkSNDFILE (sf_path f) (sf_mode f) (sf_info f) all),
         set_files (<[sf_path f := sf_encode (sf_info f) all]> (files w)) w)
  end.

Definition sf_close (file : option SNDFILE) (w : World) : World :=
  record (call_sf_close (sf_path <$> file)) w.

(** [r8b::CDSPResampler16 resampler(Src, Dst, MaxInLen)]. *)
Record CDSPResampler16 := mkCDSPResampler16 {
  SrcSampleRate : Z;
  DstSampleRate : Z;
  MaxInLen : Z
}.

Definition new_CDSPResampler16 (src dst len : Z) (w : World)
  : CDSPResampler16 * World :=
  (mkCDSPResampler16 src dst len, record (call_CDSPResampler16 src dst len) w).

(** [resampler.process(ip, l, op)]: the pointer received in [op] and
    the returned length are not used by the caller; what matters is
    what the call leaves in the buffer at [ip]. *)
Definition process (r : CDSPResampler16) (ip : list sample) (l : Z) (w : World)
  : list sample * World :=
  (overwrite (r8b_process (SrcSampleRate r) (DstSampleRate r) (MaxInLen r)
                          (firstn (Z.to_nat l) ip)) ip,
   record (call_process l) w).

(** [std::vector<double> fArray(frames * channels)]: the product is
    taken in [sf_count_t] and converted to [size_t]. *)
Definition vector_size (sfinfo : SF_INFO) : nat :=
  Z.to_nat (to_size_t (to_int64 (frames sfinfo * channels sfinfo))).

(** [fArray.size()] where a signed count is expected (the resampler's
    header is not part of the sources; its two lengths are taken as
    such counts too). *)
Definition size (v : list sample) : Z := to_int64 (Z.of_nat (length v)).

(** [Converter::convert]. *)
Definition convert (inPath outPath : string) (this : Converter) (w : World)
  : Converter * World :=
  let '(inFile, sfinfo, w) := sf_open inPath SFM_READ sfinfo_uninit w in
  match inFile with
  | None => (this, put_cerr "Error opening the input file." w)
  | Some inFile =>
      let this := set_subformat (Z.land (format sfinfo) SF_FORMAT_SUBMASK) this in
      if subformat this =? SF_FORMAT_PCM_16 then
        let w := put_cout "[!] File is already 16 bit. Copying instead.." w in
        let w := copyFile inPath outPath w in
        let w := sf_close (Some inFile) w in
        (this, w)
      else
        let fArray := repeat zero (vector_size sfinfo) in
        let '(n, fArray, w) := sf_readf_double inFile fArray (frames sfinfo) w in
        let this := set_rFrames n this in
        let w := sf_close (Some inFile) w in
        let sfinfo := set_samplerate 48000 sfinfo in
        let sfinfo := set_channels 2 sfinfo in
        let sfinfo := set_format (Z.lor SF_FORMAT_WAV SF_FORMAT_PCM_16) sfinfo in
        let '(outFile, sfinfo, w) := sf_open outPath SFM_WRITE sfinfo w in
        let '(resampler, w) :=
          new_CDSPResampler16 (samplerate sfinfo) (samplerate sfinfo) (size fArray) w in
        let '(fArray, w) := process resampler fArray (size fArray) w in
        let '(n, outFile, w) := sf_write_double outFile fArray (size fArray) w in
        let this := set_wFrames n this in
        let w := sf_close outFile w in
        (this, w)
  end.

End Engine.

(** ** main.cpp *)

Definition allowedExtensions : list string := [".wav"; ".flac"; ".ogg"; ".mp3"].

(** [getOutPath]: ["-SPC"] is put between the stem and the extension of
    the file name; the directory is kept. *)
Definition getOutPath (inPath : string) : string :=
  let dir := fs.parent_path inPath in
  let fName := fs.stem inPath +:+ "-SPC" +:+ fs.extension inPath in
  let oPath := fs.append dir fName in
  oPath.

(** The loop of [hasAllowedExtension], with [==] of [std::string]. *)
Fixpoint extension_among (extension : string) (allowed : list string) : bool :=
  match allowed with
  | [] => false
  | allowedExt :: rest =>
      if String.eqb extension allowedExt then true
      else extension_among extension rest
  end.

Definition hasAllowedExtension (filePath : string) : bool :=
  extension_among (fs.extension filePath) allowedExtensions.

(** [getFilePaths]: every entry of the iteration that is a regular file
    with an allowed extension is pushed at the back of [filePaths]. *)
Fixpoint getFilePaths (w : World) (dirIterator : list string)
    (filePaths : list string) : list string :=
  match dirIterator with
  | [] => filePaths
  | entry :: rest =>
      if is_regular_file w entry && hasAllowedExtension entry
      then getFilePaths w rest (filePaths ++ [entry])
      else getFilePaths w rest filePaths
  end.

Definition getProgressStr (inPath : string) (currentPos listSize : Z) : string :=
  "Converting.. [" +:+ pretty currentPos +:+ "/" +:+ pretty listSize
    +:+ "].. " +:+ inPath.

Section Batch.

Context {sample : Type} (zero : sample).
Context {sndfile : SndFile sample} {r8b : Resampler sample}.

(** [processFile(filePath, conv)]. *)
Definition processFile (filePath : string) (conv : Converter) (w : World)
  : Converter * World :=
  let outPath := getOutPath filePath in
  convert zero filePath outPath conv w.

(** [processFile(filePath, outFilePath, conv)], the second overload. *)
Definition processFile_to (filePath outFilePath : string) (conv : Converter)
    (w : World) : Converter * World :=
  convert zero filePath outFilePath conv w.

(** Where [processDirectory] puts the converted tree. *)
Definition convertedDir (inPath : string) : string :=
  fs.append (fs.parent_path inPath) (fs.filename inPath +:+ "-SPC").

(** The output path of one file of the batch. *)
Definition outFilePath (w : World) (inPath filePath : string) : string :=
  let relativePath := fs.relative (current_path w) filePath inPath in
  fs.append (convertedDir inPath) relativePath.

(** The body of the [for] loop of [processDirectory], from the file at
    position [fileCounter] on ([fileName] is computed and not used, as
    in the source). *)
Fixpoint processDirectory_loop (inPath : string) (listSize : Z)
    (rest : list string) (fileCounter : Z) (conv : Converter) (w : World)
  : Converter * World :=
  match rest with
  | [] => (conv, w)
  | filePath :: rest' =>
      let w := put_cout (getProgressStr filePath fileCounter listSize) w in
      let fileName := fs.filename filePath in
      let out := outFilePath w inPath filePath in
      let w := create_directories (fs.parent_path out) w in
      let '(conv, w) := processFile_to filePath out conv w in
      processDirectory_loop inPath listSize rest' (fileCounter + 1) conv w
  end.

(** [processDirectory]. *)
Definition processDirectory (inPath : string) (conv : Converter)
    (recurseMode : bool) (w : World) : Converter * World :=
  let fileList := getFilePaths w (listing w inPath recurseMode) [] in
  let fileCounter := 1 in
  let w := create_directory (convertedDir inPath) w in
  processDirectory_loop inPath (Z.of_nat (length fileList)) fileList
                        fileCounter conv w.

(** The dispatch of [main] on [argv[1]], in a run that has received
    one and in which nothing is thrown, without the two clock readings
    and the line that prints their difference.  [main] in full, with
    what happens otherwise, is [main_run] below. *)
Definition main (argv1 : string) (w : World) : Converter * World :=
  let inPath := argv1 in
  let recurseMode := true in
  let spconverter := mkConverter 0 0 0 in
  if exists_ w inPath then
    if is_regular_file w inPath && hasAllowedExtension inPath then
      processFile inPath spconverter w
    else if is_directory w inPath then
      processDirectory inPath spconverter recurseMode w
    else
      (spconverter,
       put_cout (inPath +:+ " is neither a regular file nor a directory.") w)
  else (spconverter, put_cout (inPath +:+ " does not exist.") w).

End Batch.

(** ** Exceptions and crashes

    [convert], [processFile], [processDirectory] and [main] above are
    the runs in which every statement completes.  The program has one
    [try] block, in [copyFile]; what is thrown anywhere else leaves
    [convert], the loop of [processDirectory] and [main] in turn, and
    the runtime ends the process.  The definitions of this part put
    that in: the exception of the allocation in [convert], and the
    [argv[1]] that [main] reads without looking at [argc].  (The
    exceptions of [std::filesystem] are not modelled: in this world a
    directory can always be entered and created.) *)

Inductive exception := length_error | bad_alloc.

(** A run ends by returning or by an exception that nothing caught,
    in the world it has reached. *)
Inductive Run (A : Type) :=
| returned (a : A)
| thrown (e : exception) (w : World).
Arguments returned {A} a.
Arguments thrown {A} e w.

(** How the process ends: [return n] from [main], [std::terminate]
    after an exception left [main], or the signal of an invalid memory
    access. *)
Inductive Exit :=
| exit_status (n : Z)
| terminated (e : exception)
| segmentation_fault.

(** [std::vector<double>::max_size()] of libstdc++ on a 64-bit target:
    [PTRDIFF_MAX / sizeof(double)]. *)
Definition max_size : Z := (2 ^ 63 - 1) / 8.

(** The argument of the constructor in
    [std::vector<double> fArray(sfinfo.frames * sfinfo.channels)]. *)
Definition requested_size (sfinfo : SF_INFO) : Z :=
  to_size_t (to_int64 (frames sfinfo * channels sfinfo)).

(** What that constructor throws: [std::length_error] for a size above
    [max_size()], [std::bad_alloc] when the memory for the doubles
    cannot be had. *)
Definition vector_throws (w : World) (n : Z) : option exception :=
  if max_size <? n then Some length_error
  else if heap w <? 8 * n then Some bad_alloc
  else None.

Section Runs.

Context {sample : Type} (zero : sample).
Context {sndfile : SndFile sample} {r8b : Resampler sample}.

(** [Converter::convert] with its exception: the source is opened and,
    when it is not 16-bit PCM, the buffer is allocated (line 69); an
    exception there leaves the function at once, with [inFile] open;
    in every other case the run is that of [convert]. *)
Definition convert_run (inPath outPath : string) (this : Converter) (w : World)
  : Run (Converter * World) :=
  let '(inFile, sfinfo, w1) := sf_open inPath SFM_READ sfinfo_uninit w in
  match inFile with
  | None => returned (convert zero inPath outPath this w)
  | Some _ =>
      if Z.land (format sfinfo) SF_FORMAT_SUBMASK =? SF_FORMAT_PCM_16
      then returned (convert zero inPath outPath this w)
      else
        match vector_throws w1 (requested_size sfinfo) with
        | Some e => thrown e w1
        | None => returned (convert zero inPath outPath this w)
        end
  end.

(** [processFile(filePath, conv)] and its second overload. *)
Definition processFile_run (filePath : string) (conv : Converter) (w : World)
  : Run (Converter * World) :=
  let outPath := getOutPath filePath in
  convert_run filePath outPath conv w.

Definition processFile_to_run (filePath outFilePath : string) (conv : Converter)
    (w : World) : Run (Converter * World) :=
  convert_run filePath outFilePath conv w.

(** The [for] loop of [processDirectory]: there is no handler in it,
    so an exception out of [processFile] ends the loop. *)
Fixpoint processDirectory_loop_run (inPath : string) (listSize : Z)
    (rest : list string) (fileCounter : Z) (conv : Converter) (w : World)
  : Run (Converter * World) :=
  match rest with
  | [] => returned (conv, w)
  | filePath :: rest' =>
      let w := put_cout (getProgressStr filePath fileCounter listSize) w in
      let fileName := fs.filename filePath in
      let out := outFilePath w inPath filePath in
      let w := create_directories (fs.parent_path out) w in
      match processFile_to_run filePath out conv w with
      | thrown e w => thrown e w
      | returned (conv, w) =>
          processDirectory_loop_run inPath listSize rest' (fileCounter + 1) conv w
      end
  end.

Definition processDirectory_run (inPath : string) (conv : Converter)
    (recurseMode : bool) (w : World) : Run (Converter * World) :=
  let fileList := getFilePaths w (listing w inPath recurseMode) [] in
  let fileCounter := 1 in
  let w := create_directory (convertedDir inPath) w in
  processDirectory_loop_run inPath (Z.of_nat (length fileList)) fileList
                            fileCounter conv w.

(** [main(argc, argv)].  [argv] is the list of the [argc] arguments, the
    name of the program first; [argv[argc]] is a null pointer, and
    [inPath = argv[1]] assigns from it when the program is given no
    argument.  [elapsed] is the difference of the two clock readings,
    which the program takes from its environment.  The line of the
    elapsed time and [return 0] are reached only when nothing was
    thrown. *)
Definition main_run (elapsed : Z) (argv : list string) (w : World)
  : Exit * World :=
  match argv with
  | _ :: argv1 :: _ =>
      let inPath := argv1 in
      let recurseMode := true in
      let spconverter := mkConverter 0 0 0 in
      let r :=
        if exists_ w inPath then
          if is_regular_file w inPath && hasAllowedExtension inPath then
            processFile_run inPath spconverter w
          else if is_directory w inPath then
            processDirectory_run inPath spconverter recurseMode w
          else
            returned
              (spconverter,
               put_cout (inPath +:+ " is neither a regular file nor a directory.") w)
        else returned (spconverter, put_cout (inPath +:+ " does not exist.") w) in
      match r with
      | returned (_, w) =>
          (exit_status 0,
           put_cout ("Execution Time: " +:+ pretty elapsed +:+ " microseconds") w)
      | thrown e w => (terminated e, w)
      end
  | _ => (segmentation_fault, w)
  end.

End Runs.

(** ** Notions the properties are stated with *)

(** The three shapes of a directory that a path with a relative part
    can have as its parent: empty, the root, or a path ending with a
    file name. *)
Inductive dir_shape : list ascii -> Prop :=
| dir_empty : dir_shape []
| dir_root : dir_shape ["/"%char]
| dir_named c r : fs.is_sep c = false -> dir_shape (rev (c :: r)).

(** The file name [getOutPath] builds: the stem of the input, ["-SPC"],
    the extension of the input. *)
Definition new_name_l (inPath : string) : list ascii :=
  fst (fs.split_ext (fs.filename_l (fs.chars inPath)))
    ++ fs.chars "-SPC"
    ++ snd (fs.split_ext (fs.filename_l (fs.chars inPath))).

(** The name of a directory entry: not empty, without separator,
    neither ["."] nor [".."]. *)
Definition entry_name (n : string) : Prop :=
  n <> "" /\ forallb fs.not_sep (fs.chars n) = true /\ n <> "." /\ n <> "..".

(** What a run leaves in the record of calls. *)

Definition opened_for_reading (c : Call) : option string :=
  match c with
  | call_sf_open p mode _ => if mode =? SFM_READ then Some p else None
  | _ => None
  end.

Definition opened_for_writing (c : Call) : option (string * SF_INFO) :=
  match c with
  | call_sf_open p mode i => if mode =? SFM_WRITE then Some (p, i) else None
  | _ => None
  end.

Definition resampler_rates (c : Call) : option (Z * Z) :=
  match c with
  | call_CDSPResampler16 src dst _ => Some (src, dst)
  | _ => None
  end.

Definition write_request (c : Call) : option Z :=
  match c with
  | call_sf_write_double _ items => Some items
  | _ => None
  end.

Definition decodes_or_encodes (c : Call) : bool :=
  match c with
  | call_sf_open _ mode _ => mode =? SFM_WRITE
  | call_sf_readf_double _ _ | call_sf_write_double _ _
  | call_CDSPResampler16 _ _ _ | call_process _ => true
  | call_sf_close _ => false
  end.

(** The descriptor [convert] declares for its output: the three
    assignments to [sfinfo] before the second [sf_open]. *)
Definition declared (sfinfo : SF_INFO) : SF_INFO :=
  set_format (Z.lor SF_FORMAT_WAV SF_FORMAT_PCM_16)
    (set_channels 2 (set_samplerate 48000 sfinfo)).

(** The files [convert] was run on: each run starts with one [sf_open]
    for reading, and makes no other. *)
Definition attempts (w : World) : list string :=
  omap opened_for_reading (calls w).

(** The open errors reported so far. *)
Definition open_error (line : string) : bool :=
  String.eqb line "Error opening the input file.".

Definition open_errors (w : World) : nat :=
  length (List.filter open_error (cerr w)).

(** The number of items of the buffer, as [convert] passes it on. *)
Definition buffer_size (sfinfo : SF_INFO) : Z :=
  to_int64 (Z.of_nat (vector_size sfinfo)).

(** The handle the second [sf_open] of [convert] returns, by the path it
    is open on. *)
Definition out_handle (outPath : string) (w : World) : option string :=
  if decide (outPath ∈ deny_open w) then None else Some outPath.

Section Buffers.

Context {sample : Type} (zero : sample).
Context {sndfile : SndFile sample} {r8b : Resampler sample}.

(** The request [convert] makes of [sf_write_double] comes to
    nothing. *)
Definition write_fails (outPath : string) (sfinfo : SF_INFO) (w : World) : bool :=
  bool_decide (outPath ∈ deny_write w)
  || negb (sf_takes (declared sfinfo) (buffer_size sfinfo)).

(** A file [sf_open] cannot open for reading: missing, or not a
    recognised container. *)
Definition unreadable (w : World) (p : string) : bool :=
  match files w !! p ≫= sf_parse with
  | Some _ => false
  | None => true
  end.

(** The buffer [convert] allocates, fills and hands to the resampler
    and to the writer. *)
Definition decoded (inPath : string) (sfinfo : SF_INFO) (w : World)
  : list sample :=
  overwrite
    (match files w !! inPath with
     | Some bytes => sf_decode bytes (frames sfinfo)
     | None => []
     end)
    (repeat zero (vector_size sfinfo)).

Definition resampled (inPath : string) (sfinfo : SF_INFO) (w : World)
  : list sample :=
  let fArray := decoded inPath sfinfo w in
  overwrite (r8b_process 48000 48000 (size fArray)
               (firstn (Z.to_nat (size fArray)) fArray)) fArray.

End Buffers.

(** The handles given to [sf_close], the null ones left out. *)
Definition closed_handle (c : Call) : option string :=
  match c with
  | call_sf_close (Some p) => Some p
  | _ => None
  end.

(** The directory that holds the directory [inPath] names, absolute
    (from the current directory [cwd]) and normal, by its elements. *)
Definition holder (cwd inPath : string) : list string :=
  fs.normal_from []
    ((if fs.is_absolute_l (fs.chars inPath) then [] else fs.elements cwd)
       ++ fs.elements (fs.parent_path inPath)).

(** The last line [main] prints. *)
Definition time_line (line : string) : bool :=
  String.prefix "Execution Time: " line.



(** ** A small container format and resampler to run the program on *)

Module Toy.

Definition byte_of_Z (z : Z) : byte :=
  match Byte.of_N (Z.to_N (z mod 256)) with
  | Some b => b
  | None => x00
  end.
Definition Z_of_byte (b : byte) : Z := Z.of_N (Byte.to_N b).

(** A file is a three-byte header (subformat, sample rate in units of
    300 Hz, channel count) followed by one byte per item; WAV is the
    only container.  A write is taken when it is a whole number of
    frames. *)
Definition parse (bytes : list byte) : option SF_INFO :=
  match bytes with
  | f :: r :: c :: data =>
      if Z_of_byte c =? 0 then None
      else Some (mkSF_INFO (Z.of_nat (length data) / Z_of_byte c)
                           (300 * Z_of_byte r) (Z_of_byte c)
                           (Z.lor SF_FORMAT_WAV (Z_of_byte f)) 1 1)
  | _ => None
  end.

Definition decode (bytes : list byte) (n : Z) : list Z :=
  match bytes with
  | _ :: _ :: c :: data => Z_of_byte <$> firstn (Z.to_nat (n * Z_of_byte c)) data
  | _ => []
  end.

Definition encode (i : SF_INFO) (items : list Z) : list byte :=
  byte_of_Z (Z.land (format i) SF_FORMAT_SUBMASK)
    :: byte_of_Z (samplerate i / 300) :: byte_of_Z (channels i)
    :: (byte_of_Z <$> items).

#[global] Instance sndfile : SndFile Z :=
  {| sf_parse := parse; sf_decode := decode;
     sf_takes := fun i items => items mod channels i =? 0;
     sf_encode := encode |}.

(** A resampler that leaves the items as they are when the two rates
    are equal and halves them otherwise. *)
#[global] Instance resampler : Resampler Z :=
  {| r8b_process := fun src dst _ ip =>
       if src =? dst then ip else (fun x => x / 2) <$> ip |}.

Definition world_with (fl : list (string * list byte))
    (ls : string -> bool -> list string) (no_open no_write : list string) : World :=
  mkWorld (list_to_map fl) ∅ ls "/home" (list_to_set no_open)
          (list_to_set no_write) [] [] [] ∅ (2 ^ 30).

Definition add_directories (dirs : list string) (w : World) : World :=
  set_directories (list_to_set dirs ∪ directories w) w.

Definition add_others (paths : list string) (w : World) : World :=
  mkWorld (files w) (directories w) (listing w) (current_path w) (deny_open w)
          (deny_write w) (cout w) (cerr w) (calls w)
          (list_to_set paths ∪ others w) (heap w).

Definition world (fl : list (string * list byte)) : World :=
  world_with fl (fun _ _ => []) [] [].

Definition conv0 : Converter := mkConverter 0 0 0.

(** Float, 44100 Hz, stereo, three frames. *)
Definition float_44100 : list byte :=
  [x06; x93; x02; x0a; x14; x1e; x28; x32; x3c].
(** 16-bit PCM, 24000 Hz, mono, four frames. *)
Definition pcm16_24000_mono : list byte := [x02; x50; x01; x01; x02; x03; x04].
(** Too short to be a container. *)
Definition corrupt : list byte := [x06].

(** A directory [root] with a subdirectory, three files with an allowed
    extension (one of them corrupt) and two without. *)
Definition tree_files : list (string * list byte) :=
  [("root/a/b/c.wav", float_44100); ("root/bad.ogg", corrupt);
   ("root/notes.txt", []); ("root/song.MP3", float_44100);
   ("root/y.wav", pcm16_24000_mono)].

Definition tree_entries (dir : string) : list string :=
  (fun name => fs.append dir name) <$>
    ["a"; "a/b"; "a/b/c.wav"; "bad.ogg"; "notes.txt"; "song.MP3"; "y.wav"].

(** The tree, entered as [root] or as [root/] (both name the
    directory). *)
Definition tree : World :=
  add_directories ["root"; "root/"; "root/a"; "root/a/b"]
    (world_with tree_files
       (fun dir _ =>
          if String.eqb dir "root" || String.eqb dir "root/"
          then tree_entries dir else [])
       [] []).

End Toy.

(** A container whose header announces its frames, so that a file can
    hold fewer items than it announces (a truncated file). *)
Module Cut.

Definition parse (bytes : list byte) : option SF_INFO :=
  match bytes with
  | f :: r :: c :: n :: _ =>
      if Toy.Z_of_byte c =? 0 then None
      else Some (mkSF_INFO (Toy.Z_of_byte n) (300 * Toy.Z_of_byte r)
                           (Toy.Z_of_byte c)
                           (Z.lor SF_FORMAT_WAV (Toy.Z_of_byte f)) 1 1)
  | _ => None
  end.

Definition decode (bytes : list byte) (n : Z) : list Z :=
  match bytes with
  | _ :: _ :: c :: _ :: data =>
      Toy.Z_of_byte <$> firstn (Z.to_nat (n * Toy.Z_of_byte c)) data
  | _ => []
  end.

Definition sndfile : SndFile Z :=
  {| sf_parse := parse; sf_decode := decode;
     sf_takes := fun i items => items mod channels i =? 0;
     sf_encode := Toy.encode |}.


End Cut.

(** A container whose header may leave the length open, as that of a
    stream does; the library then reports [SF_COUNT_MAX] frames. *)
Module Endless.

Definition SF_COUNT_MAX : Z := 0x7FFFFFFFFFFFFFFF.

(** The header of [Cut], where an announced count of 255 stands for a
    length that is not known. *)
Definition parse (bytes : list byte) : option SF_INFO :=
  match Cut.parse bytes with
  | Some i =>
      if frames i =? 255
      then Some (mkSF_INFO SF_COUNT_MAX (samplerate i) (channels i) (format i)
                           (sections i) (seekable i))
      else Some i
  | None => None
  end.

Definition sndfile : SndFile Z :=
  {| sf_parse := parse; sf_decode := Cut.decode;
     sf_takes := fun i items => items mod channels i =? 0;
     sf_encode := Toy.encode |}.

(** Float, 44100 Hz, mono, of a length that is not announced. *)
Definition unknown_length : list byte := [x06; x93; x01; xff; x0a; x14].
(** Float, 44100 Hz, stereo, two frames. *)
Definition two_frames : list byte := [x06; x93; x02; x02; x0a; x14; x1e; x28].

(** A directory [in] of three files with an allowed extension, the first
    of them either of unknown length or too short to be a container. *)
Definition batch_with (first : list byte) : World :=
  Toy.add_directories ["in"]
    (Toy.world_with
       [("in/a.ogg", first); ("in/b.wav", two_frames); ("in/c.wav", two_frames)]
       (fun dir _ =>
          if String.eqb dir "in" then ["in/a.ogg"; "in/b.wav"; "in/c.wav"] else [])
       [] []).

End Endless.


(** * Properties *)

(** ** Lists cut at the first element failing a test *)

Section While.
Context {A : Type} (f : A -> bool).

Lemma take_while_all (l : list A) :
  forallb f l = true -> fs.take_while f l = l.
Proof.
  induction l as [|x l IH]; simpl; [reflexivity|].
  intros [Hx Hl]%andb_true_iff. rewrite Hx, IH; auto.
Qed.

Lemma drop_while_all (l : list A) :
  forallb f l = true -> fs.drop_while f l = [].
Proof.
  induction l as [|x l IH]; simpl; [reflexivity|].
  intros [Hx Hl]%andb_true_iff. rewrite Hx. auto.
Qed.

Lemma take_while_stop (l1 l2 : list A) (x : A) :
  forallb f l1 = true -> f x = false ->
  fs.take_while f (l1 ++ x :: l2) = l1.
Proof.
  induction l1 as [|y l1 IH]; simpl; intros H Hx.
  - rewrite Hx. reflexivity.
  - apply andb_true_iff in H as [Hy Hl]. rewrite Hy, IH; auto.
Qed.

Lemma drop_while_stop (l1 l2 : list A) (x : A) :
  forallb f l1 = true -> f x = false ->
  fs.drop_while f (l1 ++ x :: l2) = x :: l2.
Proof.
  induction l1 as [|y l1 IH]; simpl; intros H Hx.
  - rewrite Hx. reflexivity.
  - apply andb_true_iff in H as [Hy Hl]. rewrite Hy, IH; auto.
Qed.

Lemma take_while_forallb (l : list A) : forallb f (fs.take_while f l) = true.
Proof.
  induction l as [|x l IH]; simpl; [reflexivity|].
  destruct (f x) eqn:Hx; simpl; [rewrite Hx, IH|]; reflexivity.
Qed.

Lemma drop_while_head (l r : list A) (x : A) :
  fs.drop_while f l = x :: r -> f x = false.
Proof.
  induction l as [|y l IH]; simpl; [discriminate|].
  destruct (f y) eqn:Hy; [exact IH|]. intros [= -> _]. exact Hy.
Qed.

Lemma take_drop_while (l : list A) :
  fs.take_while f l ++ fs.drop_while f l = l.
Proof.
  induction l as [|x l IH]; simpl; [reflexivity|].
  destruct (f x); simpl; [rewrite IH|]; reflexivity.
Qed.
End While.

Lemma forallb_rev {A} (f : A -> bool) (l : list A) :
  forallb f (rev l) = forallb f l.
Proof.
  induction l as [|x l IH]; simpl; [reflexivity|].
  rewrite forallb_app, IH. simpl. rewrite andb_true_r. apply andb_comm.
Qed.

(** ** Characters of a string *)

Lemma chars_str (l : list ascii) : fs.chars (fs.str l) = l.
Proof. apply list_ascii_of_string_of_list_ascii. Qed.

Lemma str_chars (s : string) : fs.str (fs.chars s) = s.
Proof. apply string_of_list_ascii_of_string. Qed.

Lemma chars_app (s t : string) : fs.chars (s +:+ t) = fs.chars s ++ fs.chars t.
Proof. induction s as [|c s IH]; simpl; [reflexivity|]. f_equal. exact IH. Qed.

Lemma str_app (l k : list ascii) : fs.str (l ++ k) = fs.str l +:+ fs.str k.
Proof.
  induction l as [|c l IH]; [reflexivity|].
  change (String c (fs.str (l ++ k)) = String c (fs.str l +:+ fs.str k)).
  rewrite IH. reflexivity.
Qed.

(** ** File names and parents *)

(** A file name holds no separator. *)
Lemma filename_l_no_sep (p : list ascii) :
  forallb fs.not_sep (fs.filename_l p) = true.
Proof.
  unfold fs.filename_l. rewrite forallb_rev. apply take_while_forallb.
Qed.

(** The stem and the extension make up the file name. *)
Lemma split_ext_app (f : list ascii) :
  fst (fs.split_ext f) ++ snd (fs.split_ext f) = f.
Proof.
  unfold fs.split_ext.
  destruct (fs.special_name f); [apply app_nil_r|].
  pose proof (take_drop_while fs.not_dot (rev f)) as E.
  destruct (fs.drop_while fs.not_dot (rev f)) as [|d [|c s]]; simpl;
    try apply app_nil_r.
  apply (f_equal (@rev ascii)) in E.
  rewrite rev_involutive, rev_app_distr in E. simpl in E.
  etransitivity; [|exact E]. rewrite <- !app_assoc. reflexivity.
Qed.

Lemma drop_while_nil {A} (f : A -> bool) (l : list A) :
  fs.drop_while f l = [] -> forallb f l = true.
Proof.
  induction l as [|x l IH]; simpl; [reflexivity|].
  destruct (f x); [exact IH|discriminate].
Qed.

Lemma special_name_long (f : list ascii) :
  (3 <= length f)%nat -> fs.special_name f = false.
Proof.
  intros H. unfold fs.special_name.
  rewrite !bool_decide_eq_false_2; [reflexivity| |]; intros ->; simpl in H; lia.
Qed.

Lemma not_dot_dot : fs.not_dot "."%char = false.
Proof. reflexivity. Qed.

(** Text without a period, put between the stem and the extension of a
    file name other than [".."], lands at the end of the stem. *)
Lemma split_ext_insert (f m : list ascii) :
  f <> ["."%char; "."%char] -> (3 <= length m)%nat ->
  forallb fs.not_dot m = true ->
  fs.split_ext (fst (fs.split_ext f) ++ m ++ snd (fs.split_ext f))
  = (fst (fs.split_ext f) ++ m, snd (fs.split_ext f)).
Proof.
  intros Hf Hm Hnd.
  assert (Hrm : forallb fs.not_dot (rev m) = true)
    by (rewrite forallb_rev; exact Hnd).
  assert (Hlong : forall a b, fs.special_name (a ++ m ++ b) = false).
  { intros a b. apply special_name_long. rewrite !length_app. lia. }
  assert (Hlong' : forall a, fs.special_name (a ++ m) = false).
  { intros a. apply special_name_long. rewrite !length_app. lia. }
  set (se := fs.split_ext f).
  assert (Hse : se = fs.split_ext f) by reflexivity.
  clearbody se. unfold fs.split_ext in Hse.
  destruct (fs.special_name f) eqn:Hs; [|
    pose proof (take_drop_while fs.not_dot (rev f)) as E;
    pose proof (take_while_forallb fs.not_dot (rev f)) as Htw;
    destruct (fs.drop_while fs.not_dot (rev f)) as [|d [|c s]] eqn:Hd];
    subst se.
  - (* the name is a single period *)
    assert (f = ["."%char]) as ->.
    { unfold fs.special_name in Hs. apply orb_true_iff in Hs as [H|H];
        apply bool_decide_eq_true in H; congruence. }
    cbn [fst snd]. rewrite app_nil_r.
    unfold fs.split_ext. rewrite (Hlong' ["."%char]).
    change (["."%char] ++ m) with ("."%char :: m). simpl rev.
    rewrite (drop_while_stop _ _ [] _ Hrm not_dot_dot). reflexivity.
  - (* no period at all *)
      cbn [fst snd]. rewrite app_nil_r.
      unfold fs.split_ext. rewrite Hlong'.
      rewrite rev_app_distr, drop_while_all; [reflexivity|].
      rewrite forallb_app, Hrm. simpl. apply drop_while_nil, Hd.
  - (* the only period comes first *)
      cbn [fst snd]. rewrite app_nil_r.
      unfold fs.split_ext. rewrite Hlong'.
      rewrite rev_app_distr, <- E, app_assoc.
      rewrite drop_while_stop; [reflexivity| |eapply drop_while_head, Hd].
      rewrite forallb_app, Hrm, Htw. reflexivity.
  - (* a stem and an extension *)
      cbn [fst snd].
      unfold fs.split_ext. rewrite Hlong.
      assert (Hr : rev (rev (c :: s) ++ m ++ d :: rev (fs.take_while fs.not_dot (rev f)))
                   = fs.take_while fs.not_dot (rev f) ++ d :: (rev m ++ c :: s)).
      { rewrite !rev_app_distr. simpl rev at 1.
        rewrite !rev_involutive, <- !app_assoc. reflexivity. }
      rewrite Hr.
      rewrite (drop_while_stop _ _ _ _ Htw (drop_while_head _ _ _ _ Hd)).
      rewrite (take_while_stop _ _ _ _ Htw (drop_while_head _ _ _ _ Hd)).
      replace (rev (c :: s) ++ m) with (rev (rev m ++ c :: s))
        by (rewrite rev_app_distr, rev_involutive; reflexivity).
      destruct (rev m ++ c :: s) as [|x l] eqn:Hx; [|reflexivity].
      destruct (rev m); discriminate.
Qed.

Lemma parent_path_l_shape (p : list ascii) :
  fs.has_relative_path_l p = true -> dir_shape (fs.parent_path_l p).
Proof.
  intros H. unfold fs.parent_path_l. rewrite H.
  destruct (fs.drop_while fs.is_sep _) as [|c r] eqn:E.
  - destruct (fs.drop_while fs.not_sep (rev p)); constructor.
  - constructor. eapply drop_while_head, E.
Qed.

Lemma has_filename_relative (p : list ascii) :
  fs.filename_l p <> [] -> fs.has_relative_path_l p = true.
Proof.
  intros H. unfold fs.has_relative_path_l.
  destruct (forallb fs.is_sep p) eqn:E; [|reflexivity].
  exfalso. apply H. unfold fs.filename_l.
  rewrite <- forallb_rev in E.
  destruct (rev p) as [|c r]; [reflexivity|]. simpl in *.
  apply andb_true_iff in E as [Hc _]. unfold fs.not_sep. rewrite Hc.
  reflexivity.
Qed.

Lemma not_sep_is_sep (c : ascii) : fs.not_sep c = true -> fs.is_sep c = false.
Proof. unfold fs.not_sep. destruct (fs.is_sep c); [discriminate|reflexivity]. Qed.

Lemma not_sep_sep : fs.not_sep "/"%char = false.
Proof. reflexivity. Qed.

(** [dir / name] for a name without separator: the name is the file
    name of the result and [dir] is its parent. *)
Lemma append_l_name (d g : list ascii) :
  dir_shape d -> g <> [] -> forallb fs.not_sep g = true ->
  fs.filename_l (fs.append_l d g) = g /\
  fs.parent_path_l (fs.append_l d g) = d.
Proof.
  intros Hd Hg Hns.
  assert (Hrev : forallb fs.not_sep (rev g) = true)
    by (rewrite forallb_rev; exact Hns).
  assert (Habs : fs.is_absolute_l g = false).
  { destruct g as [|c g]; [reflexivity|]. simpl in *.
    apply andb_true_iff in Hns as [Hc _]. apply not_sep_is_sep, Hc. }
  assert (Hrel : forall l, fs.has_relative_path_l (l ++ g) = true).
  { intros l. unfold fs.has_relative_path_l. rewrite forallb_app.
    destruct g as [|c g]; [congruence|]. simpl in *.
    apply andb_true_iff in Hns as [Hc _].
    rewrite (not_sep_is_sep _ Hc), andb_false_r. reflexivity. }
  unfold fs.append_l. rewrite Habs.
  destruct Hd as [| |c r Hc].
  - (* no directory *)
    change (fs.has_filename_l []) with false. simpl.
    unfold fs.filename_l, fs.parent_path_l.
    rewrite (Hrel [] : fs.has_relative_path_l g = true).
    rewrite (take_while_all _ _ Hrev), (drop_while_all _ _ Hrev), rev_involutive.
    split; reflexivity.
  - (* the root directory *)
    change (fs.has_filename_l ["/"%char]) with false.
    unfold fs.filename_l, fs.parent_path_l.
    rewrite (Hrel ["/"%char]). simpl.
    rewrite (take_while_stop _ _ [] _ Hrev not_sep_sep).
    rewrite (drop_while_stop _ _ [] _ Hrev not_sep_sep).
    rewrite rev_involutive. split; reflexivity.
  - (* a directory with a name *)
    assert (Hf : fs.has_filename_l (rev (c :: r)) = true).
    { unfold fs.has_filename_l, fs.filename_l. rewrite rev_involutive.
      simpl. unfold fs.not_sep. rewrite Hc. simpl.
      destruct (rev (fs.take_while _ r)); reflexivity. }
    rewrite Hf.
    assert (Hr : rev (rev (c :: r) ++ "/"%char :: g) = rev g ++ "/"%char :: c :: r).
    { rewrite rev_app_distr, rev_involutive. simpl.
      rewrite <- app_assoc. reflexivity. }
    assert (Hrel' : fs.has_relative_path_l (rev (c :: r) ++ "/"%char :: g) = true).
    { change ("/"%char :: g) with (["/"%char] ++ g). rewrite app_assoc. apply Hrel. }
    unfold fs.filename_l, fs.parent_path_l.
    rewrite Hrel', Hr.
    rewrite (take_while_stop _ _ _ _ Hrev not_sep_sep).
    rewrite (drop_while_stop _ _ _ _ Hrev not_sep_sep).
    rewrite rev_involutive. simpl fs.drop_while. rewrite Hc.
    split; reflexivity.
Qed.

(** Whatever the directory, [dir / name] ends with [name]. *)
Lemma filename_l_append (d g : list ascii) :
  g <> [] -> forallb fs.not_sep g = true ->
  fs.filename_l (fs.append_l d g) = g.
Proof.
  intros Hg Hns.
  assert (Hrev : forallb fs.not_sep (rev g) = true)
    by (rewrite forallb_rev; exact Hns).
  assert (Habs : fs.is_absolute_l g = false).
  { destruct g as [|c g]; [reflexivity|]. simpl in *.
    apply andb_true_iff in Hns as [Hc _]. apply not_sep_is_sep, Hc. }
  unfold fs.append_l. rewrite Habs.
  destruct (fs.has_filename_l d) eqn:Hd; unfold fs.filename_l.
  - rewrite rev_app_distr. simpl rev. rewrite <- app_assoc. simpl app.
    rewrite (take_while_stop _ _ _ _ Hrev not_sep_sep). apply rev_involutive.
  - rewrite rev_app_distr.
    unfold fs.has_filename_l, fs.filename_l in Hd.
    destruct (rev d) as [|c r] eqn:Hr.
    + rewrite app_nil_r, take_while_all by exact Hrev. apply rev_involutive.
    + simpl in Hd. destruct (fs.not_sep c) eqn:Hc.
      * simpl in Hd. destruct (rev (fs.take_while fs.not_sep r)); discriminate.
      * rewrite (take_while_stop _ _ _ _ Hrev Hc). apply rev_involutive.
Qed.

Lemma str_nil_inv (l : list ascii) : fs.str l = "" -> l = [].
Proof. destruct l; [reflexivity|discriminate]. Qed.

Lemma filename_unfold (p : string) :
  fs.filename p = fs.str (fs.filename_l (fs.chars p)).
Proof. reflexivity. Qed.

(** ** Single-file mode: [getOutPath] *)

Lemma getOutPath_unfold (inPath : string) :
  getOutPath inPath
  = fs.str (fs.append_l (fs.parent_path_l (fs.chars inPath)) (new_name_l inPath)).
Proof.
  unfold getOutPath, fs.append, fs.parent_path, fs.stem, fs.extension, new_name_l.
  rewrite chars_str, !chars_app, !chars_str. reflexivity.
Qed.

Lemma new_name_no_sep (inPath : string) :
  forallb fs.not_sep (new_name_l inPath) = true.
Proof.
  pose proof (filename_l_no_sep (fs.chars inPath)) as H.
  rewrite <- (split_ext_app (fs.filename_l (fs.chars inPath))), forallb_app in H.
  apply andb_true_iff in H as [Hs He].
  unfold new_name_l. rewrite !forallb_app, Hs, He. reflexivity.
Qed.

Lemma new_name_not_nil (inPath : string) : new_name_l inPath <> [].
Proof.
  unfold new_name_l.
  destruct (fst (fs.split_ext (fs.filename_l (fs.chars inPath)))); discriminate.
Qed.

Lemma getOutPath_parts (inPath : string) :
  fs.filename inPath <> "" ->
  fs.filename_l (fs.chars (getOutPath inPath)) = new_name_l inPath /\
  fs.parent_path_l (fs.chars (getOutPath inPath))
  = fs.parent_path_l (fs.chars inPath).
Proof.
  intros Hf. rewrite getOutPath_unfold, chars_str.
  apply append_l_name.
  - apply parent_path_l_shape, has_filename_relative.
    intros E. apply Hf. rewrite filename_unfold, E. reflexivity.
  - apply new_name_not_nil.
  - apply new_name_no_sep.
Qed.

Lemma getOutPath_split_ext (inPath : string) :
  fs.filename inPath <> ".." ->
  fs.split_ext (new_name_l inPath)
  = (fst (fs.split_ext (fs.filename_l (fs.chars inPath))) ++ fs.chars "-SPC",
     snd (fs.split_ext (fs.filename_l (fs.chars inPath)))).
Proof.
  intros Hf. unfold new_name_l. apply split_ext_insert.
  - intros E. apply Hf. rewrite filename_unfold, E. reflexivity.
  - simpl. lia.
  - reflexivity.
Qed.

(** C4.  In single-file mode the file name of the output path is the
    stem of the input, then ["-SPC"], then the extension of the input,
    for every input path; the output lies in the directory of the input
    whenever the input ends with a file name, and unless that name is
    [".."] the suffix ends the stem and the extension is kept. *)
Theorem getOutPath_single_file (inPath : string) :
  fs.filename (getOutPath inPath)
    = fs.stem inPath +:+ "-SPC" +:+ fs.extension inPath /\
  fs.stem inPath +:+ fs.extension inPath = fs.filename inPath /\
  (fs.filename inPath <> "" ->
   fs.parent_path (getOutPath inPath) = fs.parent_path inPath) /\
  (fs.filename inPath <> ".." ->
   fs.stem (getOutPath inPath) = fs.stem inPath +:+ "-SPC" /\
   fs.extension (getOutPath inPath) = fs.extension inPath).
Proof.
  assert (Hfn : fs.filename_l (fs.chars (getOutPath inPath)) = new_name_l inPath).
  { rewrite getOutPath_unfold, chars_str.
    apply filename_l_append; [apply new_name_not_nil|apply new_name_no_sep]. }
  unfold fs.parent_path, fs.filename, fs.stem, fs.extension.
  rewrite Hfn. split; [|split; [|split]].
  - unfold new_name_l. rewrite !str_app. reflexivity.
  - rewrite <- str_app, split_ext_app. reflexivity.
  - intros Hne. destruct (getOutPath_parts inPath Hne) as [_ ->]. reflexivity.
  - intros Hdd. rewrite (getOutPath_split_ext inPath Hdd). cbn [fst snd].
    rewrite !str_app. split; reflexivity.
Qed.

Lemma getOutPath_single_file_witness :
  fs.filename "music/track.flac" <> "" /\
  fs.filename "music/track.flac" <> ".." /\
  getOutPath "music/track.flac" = "music/track-SPC.flac" /\
  fs.parent_path (getOutPath "music/track.flac") = "music" /\
  fs.filename (getOutPath "music/track.flac") = "track" +:+ "-SPC" +:+ ".flac" /\
  fs.extension (getOutPath "music/track.flac") = ".flac".
Proof.
  assert (H1 : fs.filename "music/track.flac" <> "") by (vm_compute; discriminate).
  assert (H2 : fs.filename "music/track.flac" <> "..") by (vm_compute; discriminate).
  destruct (getOutPath_single_file "music/track.flac") as (Hf & _ & Hp & Hse).
  destruct (Hse H2) as [_ He].
  split; [exact H1|]. split; [exact H2|]. split; [reflexivity|].
  split; [rewrite (Hp H1); reflexivity|].
  split; [rewrite Hf; reflexivity|rewrite He; reflexivity].
Defined.

(** The example of the specification, and an input that is no file,
    for which the extension is not kept. *)
Example getOutPath_track : getOutPath "track.flac" = "track-SPC.flac".
Proof. reflexivity. Qed.

Example getOutPath_dotdot :
  getOutPath "d/.." = "d/..-SPC" /\ fs.extension (getOutPath "d/..") = ".-SPC".
Proof. split; reflexivity. Qed.

(** The output of [getOutPath] is never its input, so [processFile]
    never converts a file onto itself. *)
Lemma getOutPath_fresh (inPath : string) : getOutPath inPath <> inPath.
Proof.
  intros E.
  assert (Hlen : length (fs.filename_l (fs.chars (getOutPath inPath)))
                 = length (fs.filename_l (fs.chars inPath)))
    by (rewrite E; reflexivity).
  rewrite getOutPath_unfold, chars_str in Hlen.
  rewrite filename_l_append in Hlen
    by (apply new_name_not_nil || apply new_name_no_sep).
  unfold new_name_l in Hlen. rewrite !length_app in Hlen.
  pose proof (f_equal (@length ascii)
                (split_ext_app (fs.filename_l (fs.chars inPath)))) as HS.
  rewrite length_app in HS. simpl in Hlen. lia.
Qed.



Section EngineProperties.

Context {sample : Type} (zero : sample).
Context {sndfile : SndFile sample} {r8b : Resampler sample}.

Lemma overwrite_length (src buf : list sample) :
  length (overwrite src buf) = length buf.
Proof.
  unfold overwrite. rewrite length_firstn, length_app, length_skipn. lia.
Qed.

(** Opening for reading: what a success and a failure mean. *)
Lemma sf_open_read_Some (path : string) (i : SF_INFO) (w w1 : World)
    (file : SNDFILE) (sfinfo : SF_INFO) :
  sf_open path SFM_READ i w = (Some file, sfinfo, w1) ->
  files w !! path ≫= sf_parse = Some sfinfo /\
  file = mkSNDFILE path SFM_READ sfinfo [] /\
  w1 = record (call_sf_open path SFM_READ i) w.
Proof.
  unfold sf_open. simpl.
  destruct (files w !! path ≫= sf_parse) as [info|]; [|discriminate].
  intros [= <- <- <-]. auto.
Qed.

Lemma sf_open_read_None (path : string) (i : SF_INFO) (w : World) :
  fst (fst (sf_open path SFM_READ i w)) = None ->
  sf_open path SFM_READ i w
  = (None, i, record (call_sf_open path SFM_READ i) w).
Proof.
  unfold sf_open. simpl.
  destruct (files w !! path ≫= sf_parse) as [info|]; [discriminate|].
  reflexivity.
Qed.




(** *** The three ways through [convert] *)

Lemma convert_open_error inPath outPath this w :
  fst (fst (sf_open inPath SFM_READ sfinfo_uninit w)) = None ->
  convert zero inPath outPath this w
  = (this, put_cerr "Error opening the input file."
             (record (call_sf_open inPath SFM_READ sfinfo_uninit) w)).
Proof.
  intros H. unfold convert. rewrite (sf_open_read_None _ _ _ H). reflexivity.
Qed.

Lemma convert_pass_through inPath outPath this w inFile sfinfo w1 :
  sf_open inPath SFM_READ sfinfo_uninit w = (Some inFile, sfinfo, w1) ->
  Z.land (format sfinfo) SF_FORMAT_SUBMASK = SF_FORMAT_PCM_16 ->
  convert zero inPath outPath this w
  = (set_subformat SF_FORMAT_PCM_16 this,
     sf_close (Some inFile)
       (copyFile inPath outPath
          (put_cout "[!] File is already 16 bit. Copying instead.." w1))).
Proof.
  intros H Hs. unfold convert. rewrite H. cbn [subformat set_subformat].
  rewrite Hs. reflexivity.
Qed.

Lemma convert_resample inPath outPath this w inFile sfinfo w1 :
  sf_open inPath SFM_READ sfinfo_uninit w = (Some inFile, sfinfo, w1) ->
  Z.land (format sfinfo) SF_FORMAT_SUBMASK <> SF_FORMAT_PCM_16 ->
  convert zero inPath outPath this w
  = let fArray := repeat zero (vector_size sfinfo) in
    let '(n, fArray, w) := sf_readf_double inFile fArray (frames sfinfo) w1 in
    let this :=
      set_rFrames n
        (set_subformat (Z.land (format sfinfo) SF_FORMAT_SUBMASK) this) in
    let w := sf_close (Some inFile) w in
    let '(outFile, sfinfo, w) := sf_open outPath SFM_WRITE (declared sfinfo) w in
    let '(resampler, w) :=
      new_CDSPResampler16 (samplerate sfinfo) (samplerate sfinfo) (size fArray) w in
    let '(fArray, w) := process resampler fArray (size fArray) w in
    let '(n, outFile, w) := sf_write_double outFile fArray (size fArray) w in
    (set_wFrames n this, sf_close outFile w).
Proof.
  intros H Hs. unfold convert. rewrite H. cbn [subformat set_subformat].
  apply Z.eqb_neq in Hs. rewrite Hs. reflexivity.
Qed.

(** *** The decode, resample, encode path, step by step *)

Ltac tidy :=
  cbn -[Z.to_nat firstn overwrite sf_encode decide bool_decide orb negb];
  repeat (rewrite overwrite_length || rewrite repeat_length);
  repeat match goal with
         | |- context [to_int64 (Z.of_nat (vector_size ?i))] =>
             change (to_int64 (Z.of_nat (vector_size i))) with (buffer_size i)
         end.

Ltac run_resample H Hs :=
  rewrite (convert_resample _ _ _ _ _ _ _ H Hs);
  apply sf_open_read_Some in H as (? & -> & ->);
  unfold sf_readf_double, sf_open, new_CDSPResampler16, process,
    sf_write_double, sf_close, out_handle, size, write_fails;
  tidy.

Ltac by_outcome outPath w :=
  destruct (decide (outPath ∈ deny_open w)); tidy;
  [|destruct (bool_decide (outPath ∈ deny_write w) || negb (sf_takes _ _)); tidy].

Lemma convert_resample_calls inPath outPath this w inFile sfinfo w1 :
  sf_open inPath SFM_READ sfinfo_uninit w = (Some inFile, sfinfo, w1) ->
  Z.land (format sfinfo) SF_FORMAT_SUBMASK <> SF_FORMAT_PCM_16 ->
  calls (convert zero inPath outPath this w).2
  = calls w ++
    [call_sf_open inPath SFM_READ sfinfo_uninit;
     call_sf_readf_double inPath (frames sfinfo);
     call_sf_close (Some inPath);
     call_sf_open outPath SFM_WRITE (declared sfinfo);
     call_CDSPResampler16 48000 48000 (buffer_size sfinfo);
     call_process (buffer_size sfinfo);
     call_sf_write_double (out_handle outPath w) (buffer_size sfinfo);
     call_sf_close (out_handle outPath w)].
Proof.
  intros H Hs. run_resample H Hs. by_outcome outPath w;
    rewrite <- !app_assoc; reflexivity.
Qed.

Lemma convert_resample_console inPath outPath this w inFile sfinfo w1 :
  sf_open inPath SFM_READ sfinfo_uninit w = (Some inFile, sfinfo, w1) ->
  Z.land (format sfinfo) SF_FORMAT_SUBMASK <> SF_FORMAT_PCM_16 ->
  cout (convert zero inPath outPath this w).2 = cout w /\
  cerr (convert zero inPath outPath this w).2 = cerr w.
Proof.
  intros H Hs. run_resample H Hs. by_outcome outPath w; split; reflexivity.
Qed.

Lemma convert_resample_files inPath outPath this w inFile sfinfo w1 :
  sf_open inPath SFM_READ sfinfo_uninit w = (Some inFile, sfinfo, w1) ->
  Z.land (format sfinfo) SF_FORMAT_SUBMASK <> SF_FORMAT_PCM_16 ->
  files (convert zero inPath outPath this w).2
  = if decide (outPath ∈ deny_open w) then files w
    else if write_fails outPath sfinfo w
         then <[outPath := sf_encode (declared sfinfo) []]> (files w)
         else <[outPath := sf_encode (declared sfinfo)
                             (firstn (Z.to_nat (buffer_size sfinfo))
                                     (resampled zero inPath sfinfo w))]> (files w).
Proof.
  intros H Hs. run_resample H Hs. by_outcome outPath w; try reflexivity.
  rewrite insert_insert_eq. unfold resampled, decoded, size. tidy. reflexivity.
Qed.

Lemma convert_resample_wFrames inPath outPath this w inFile sfinfo w1 :
  sf_open inPath SFM_READ sfinfo_uninit w = (Some inFile, sfinfo, w1) ->
  Z.land (format sfinfo) SF_FORMAT_SUBMASK <> SF_FORMAT_PCM_16 ->
  wFrames (convert zero inPath outPath this w).1
  = if decide (outPath ∈ deny_open w) then 0
    else if write_fails outPath sfinfo w then 0
         else Z.of_nat (length (firstn (Z.to_nat (buffer_size sfinfo))
                                       (resampled zero inPath sfinfo w))).
Proof.
  intros H Hs. run_resample H Hs. by_outcome outPath w; try reflexivity.
  unfold resampled, decoded, size. tidy. reflexivity.
Qed.

(** *** [copyFile] *)

Lemma ifstream_is_open_file (w : World) (p : string) (bytes : list byte) :
  files w !! p = Some bytes -> ifstream_is_open w p = true.
Proof.
  intros H. unfold ifstream_is_open, is_regular_file.
  rewrite bool_decide_eq_true_2 by (rewrite H; eexists; reflexivity).
  reflexivity.
Qed.

Lemma copyFile_calls s d w : calls (copyFile s d w) = calls w.
Proof.
  unfold copyFile. destruct (ifstream_is_open w s); [|reflexivity].
  destruct (decide (d ∈ deny_open w)); [reflexivity|]. cbn.
  destruct (<[d:=[]]> (files w) !! s); [|reflexivity].
  destruct (decide (d ∈ deny_write w)); reflexivity.
Qed.

Lemma copyFile_frame s d w p :
  p <> d -> files (copyFile s d w) !! p = files w !! p.
Proof.
  intros Hne. unfold copyFile. destruct (ifstream_is_open w s); [|reflexivity].
  destruct (decide (d ∈ deny_open w)); [reflexivity|]. cbn.
  destruct (<[d:=[]]> (files w) !! s);
    [destruct (decide (d ∈ deny_write w))|]; cbn;
    rewrite ?lookup_insert_ne by congruence; reflexivity.
Qed.

Lemma copyFile_open_errors s d w :
  open_errors (copyFile s d w) = open_errors w.
Proof.
  unfold copyFile, open_errors. destruct (ifstream_is_open w s).
  - destruct (decide (d ∈ deny_open w)).
    + cbn. rewrite List.filter_app, length_app. cbn. lia.
    + cbn. destruct (<[d:=[]]> (files w) !! s); [|reflexivity].
      destruct (decide (d ∈ deny_write w)); reflexivity.
  - cbn. rewrite List.filter_app, length_app. cbn. lia.
Qed.

Lemma copyFile_env s d w :
  deny_open (copyFile s d w) = deny_open w /\
  deny_write (copyFile s d w) = deny_write w /\
  current_path (copyFile s d w) = current_path w.
Proof.
  unfold copyFile. destruct (ifstream_is_open w s); [|auto].
  destruct (decide (d ∈ deny_open w)); [auto|]. cbn.
  destruct (<[d:=[]]> (files w) !! s); [|auto].
  destruct (decide (d ∈ deny_write w)); auto.
Qed.

Lemma copyFile_copies sourcePath destinationPath w bytes :
  files w !! sourcePath = Some bytes ->
  destinationPath ∉ deny_open w -> destinationPath ∉ deny_write w ->
  destinationPath <> sourcePath ->
  copyFile sourcePath destinationPath w
  = set_files (<[destinationPath := bytes]> (files w)) w.
Proof.
  intros Hb Ho Hw Hne. unfold copyFile.
  rewrite (ifstream_is_open_file _ _ _ Hb).
  rewrite decide_False by exact Ho. cbn.
  rewrite lookup_insert_ne by exact Hne. rewrite Hb.
  rewrite decide_False by exact Hw.
  unfold set_files. cbn. rewrite insert_insert_eq. reflexivity.
Qed.

(** *** The source cannot be opened *)

(** C8.  When the source cannot be opened for reading, [convert] prints
    the open error on the error stream and returns: it has made one call,
    the failed [sf_open], and no file (the destination in particular)
    and no directory has been created or changed. *)
Theorem convert_open_failure inPath outPath this w :
  fst (fst (sf_open inPath SFM_READ sfinfo_uninit w)) = None ->
  let r := convert zero inPath outPath this w in
  cerr r.2 = cerr w ++ ["Error opening the input file."] /\
  files r.2 = files w /\
  files r.2 !! outPath = files w !! outPath /\
  directories r.2 = directories w /\
  cout r.2 = cout w /\
  calls r.2 = calls w ++ [call_sf_open inPath SFM_READ sfinfo_uninit] /\
  r.1 = this.
Proof.
  intros H r. subst r. rewrite (convert_open_error _ _ _ _ H).
  repeat split; reflexivity.
Qed.

(** *** The source is 16-bit PCM *)

Lemma copyFile_denied sourcePath destinationPath w bytes :
  files w !! sourcePath = Some bytes ->
  destinationPath ∈ deny_open w ->
  copyFile sourcePath destinationPath w
  = put_cerr "Error copying file: Failed to open destination file" w.
Proof.
  intros Hb Ho. unfold copyFile. rewrite (ifstream_is_open_file _ _ _ Hb).
  rewrite decide_True by exact Ho. reflexivity.
Qed.

(** C2.  When the source is found to be 16-bit PCM, whatever its sample
    rate and channel count, [convert] takes the copy path: nothing is
    decoded, resampled or encoded (the calls made are the [sf_open] of
    the inspection and its [sf_close]), and the destination, a file
    other than the source that can be opened and written, ends up
    holding the bytes of the source, every other file being as it was.
    A destination that cannot be opened is reported by [copyFile] and
    nothing is copied. *)
Theorem convert_pcm16_copies inPath outPath this w inFile sfinfo w1 :
  sf_open inPath SFM_READ sfinfo_uninit w = (Some inFile, sfinfo, w1) ->
  Z.land (format sfinfo) SF_FORMAT_SUBMASK = SF_FORMAT_PCM_16 ->
  let r := convert zero inPath outPath this w in
  calls r.2 = calls w ++ [call_sf_open inPath SFM_READ sfinfo_uninit;
                          call_sf_close (Some inPath)] /\
  List.filter decodes_or_encodes (calls r.2)
    = List.filter decodes_or_encodes (calls w) /\
  (outPath ∉ deny_open w -> outPath ∉ deny_write w -> outPath <> inPath ->
   (exists bytes, files w !! inPath = Some bytes /\
                  files r.2 = <[outPath := bytes]> (files w)) /\
   files r.2 !! outPath = files w !! inPath /\
   files r.2 !! inPath = files w !! inPath /\
   cerr r.2 = cerr w) /\
  (outPath ∈ deny_open w ->
   files r.2 = files w /\
   cerr r.2 = cerr w ++ ["Error copying file: Failed to open destination file"]).
Proof.
  intros H Hs r. subst r.
  rewrite (convert_pass_through _ _ _ _ _ _ _ H Hs).
  apply sf_open_read_Some in H as (Hp & -> & ->).
  destruct (files w !! inPath) as [bytes|] eqn:Hb; [|discriminate].
  cbn [snd]. unfold sf_close. cbn [calls record].
  rewrite copyFile_calls. cbn [calls record put_cout].
  rewrite <- app_assoc, List.filter_app. cbn [app List.filter decodes_or_encodes].
  rewrite app_nil_r. split; [reflexivity|]. split; [reflexivity|]. split.
  - intros Ho Hw Hne.
    rewrite (copyFile_copies inPath outPath _ bytes); try assumption.
    cbn. repeat split.
    + exists bytes. split; reflexivity.
    + apply lookup_insert_eq.
    + rewrite lookup_insert_ne by exact Hne. exact Hb.
  - intros Ho.
    rewrite (copyFile_denied inPath outPath _ bytes); try assumption.
    split; reflexivity.
Qed.

(** *** The decode, resample, encode path: what is declared and written *)

(** C3.  For a source that is not 16-bit PCM, the descriptor [convert]
    opens its output with is the source's with the rate set to 48000,
    the channel count to 2 and the format to WAV with 16-bit PCM,
    whatever the rate and channel count of the source; it is the one
    output opened, and when that succeeds the destination holds a
    container with that descriptor. *)
Theorem convert_declares_target inPath outPath this w inFile sfinfo w1 :
  sf_open inPath SFM_READ sfinfo_uninit w = (Some inFile, sfinfo, w1) ->
  Z.land (format sfinfo) SF_FORMAT_SUBMASK <> SF_FORMAT_PCM_16 ->
  let r := convert zero inPath outPath this w in
  omap opened_for_writing (calls r.2)
    = omap opened_for_writing (calls w) ++ [(outPath, declared sfinfo)] /\
  samplerate (declared sfinfo) = 48000 /\
  channels (declared sfinfo) = 2 /\
  Z.land (format (declared sfinfo)) SF_FORMAT_SUBMASK = SF_FORMAT_PCM_16 /\
  Z.land (format (declared sfinfo)) SF_FORMAT_TYPEMASK = SF_FORMAT_WAV /\
  (outPath ∉ deny_open w ->
   exists items, files r.2 !! outPath = Some (sf_encode (declared sfinfo) items)).
Proof.
  intros H Hs r. subst r.
  rewrite (convert_resample_calls _ _ _ _ _ _ _ H Hs).
  rewrite (convert_resample_files _ _ _ _ _ _ _ H Hs).
  rewrite omap_app. repeat split.
  intros Ho. rewrite decide_False by exact Ho.
  destruct (write_fails outPath sfinfo w); eexists; apply lookup_insert_eq.
Qed.

(** The resampler is built with 48000 as both of its rates, whatever the
    rate of the source. *)
Lemma convert_resampler_rates inPath outPath this w inFile sfinfo w1 :
  sf_open inPath SFM_READ sfinfo_uninit w = (Some inFile, sfinfo, w1) ->
  Z.land (format sfinfo) SF_FORMAT_SUBMASK <> SF_FORMAT_PCM_16 ->
  omap resampler_rates (calls (convert zero inPath outPath this w).2)
  = omap resampler_rates (calls w) ++ [(48000, 48000)].
Proof.
  intros H Hs. rewrite (convert_resample_calls _ _ _ _ _ _ _ H Hs).
  rewrite omap_app. reflexivity.
Qed.

(** On this path nothing is ever printed, whether or not the output could
    be opened and written; a failure shows only in [wFrames], which
    nothing reads. *)
Lemma convert_resample_silent inPath outPath this w inFile sfinfo w1 :
  sf_open inPath SFM_READ sfinfo_uninit w = (Some inFile, sfinfo, w1) ->
  Z.land (format sfinfo) SF_FORMAT_SUBMASK <> SF_FORMAT_PCM_16 ->
  outPath ∈ deny_open w \/ write_fails outPath sfinfo w = true ->
  let r := convert zero inPath outPath this w in
  cout r.2 = cout w /\ cerr r.2 = cerr w /\ wFrames r.1 = 0.
Proof.
  intros H Hs Hfail r. subst r.
  destruct (convert_resample_console inPath outPath this w _ _ _ H Hs) as [-> ->].
  rewrite (convert_resample_wFrames _ _ _ _ _ _ _ H Hs).
  repeat split.
  destruct (decide (outPath ∈ deny_open w)); [reflexivity|].
  destruct Hfail as [Hfail|Hfail]; [contradiction|rewrite Hfail; reflexivity].
Qed.

(** *** What any run of [convert] does and leaves alone *)

(** The three cases of a run, for proofs by cases. *)
Lemma convert_cases inPath w :
  fst (fst (sf_open inPath SFM_READ sfinfo_uninit w)) = None \/
  exists inFile sfinfo w1,
    sf_open inPath SFM_READ sfinfo_uninit w = (Some inFile, sfinfo, w1) /\
    (Z.land (format sfinfo) SF_FORMAT_SUBMASK = SF_FORMAT_PCM_16 \/
     Z.land (format sfinfo) SF_FORMAT_SUBMASK <> SF_FORMAT_PCM_16).
Proof.
  destruct (sf_open inPath SFM_READ sfinfo_uninit w) as [[[f|] i] w1] eqn:E;
    [right|left; reflexivity].
  exists f, i, w1. split; [reflexivity|].
  destruct (Z.eq_dec (Z.land (format i) SF_FORMAT_SUBMASK) SF_FORMAT_PCM_16); auto.
Qed.

Lemma sf_open_unreadable inPath w :
  fst (fst (sf_open inPath SFM_READ sfinfo_uninit w)) = None
  <-> unreadable w inPath = true.
Proof.
  unfold sf_open, unreadable. cbn.
  destruct (files w !! inPath ≫= sf_parse); cbn; split; congruence.
Qed.

(** Every run is one more attempt, on its input. *)
Lemma convert_attempts inPath outPath this w :
  attempts (convert zero inPath outPath this w).2 = attempts w ++ [inPath].
Proof.
  unfold attempts.
  destruct (convert_cases inPath w) as [H|(f & i & w1 & H & [Hs|Hs])].
  - rewrite (convert_open_error _ _ _ _ H). cbn. rewrite omap_app. reflexivity.
  - rewrite (convert_pass_through _ _ _ _ _ _ _ H Hs).
    apply sf_open_read_Some in H as (_ & -> & ->).
    cbn. rewrite copyFile_calls. cbn.
    rewrite <- app_assoc, omap_app. reflexivity.
  - rewrite (convert_resample_calls _ _ _ _ _ _ _ H Hs), omap_app.
    reflexivity.
Qed.

(** A run changes no file but its output. *)
Lemma convert_frame inPath outPath this w p :
  p <> outPath ->
  files (convert zero inPath outPath this w).2 !! p = files w !! p.
Proof.
  intros Hne.
  destruct (convert_cases inPath w) as [H|(f & i & w1 & H & [Hs|Hs])].
  - rewrite (convert_open_error _ _ _ _ H). reflexivity.
  - rewrite (convert_pass_through _ _ _ _ _ _ _ H Hs).
    apply sf_open_read_Some in H as (_ & -> & ->).
    cbn. rewrite copyFile_frame by exact Hne. reflexivity.
  - rewrite (convert_resample_files _ _ _ _ _ _ _ H Hs).
    destruct (decide (outPath ∈ deny_open w)); [reflexivity|].
    destruct (write_fails outPath i w);
      rewrite lookup_insert_ne by congruence; reflexivity.
Qed.

(** A run reports an open error exactly when its input is unreadable. *)
Lemma convert_open_errors inPath outPath this w :
  open_errors (convert zero inPath outPath this w).2
  = (open_errors w + if unreadable w inPath then 1 else 0)%nat.
Proof.
  destruct (convert_cases inPath w) as [H|(f & i & w1 & H & [Hs|Hs])].
  - rewrite (convert_open_error _ _ _ _ H).
    apply sf_open_unreadable in H. rewrite H.
    unfold open_errors. cbn. rewrite List.filter_app, length_app. reflexivity.
  - rewrite (convert_pass_through _ _ _ _ _ _ _ H Hs).
    apply sf_open_read_Some in H as (Hp & -> & ->).
    unfold unreadable. rewrite Hp.
    transitivity (open_errors (copyFile inPath outPath
      (put_cout "[!] File is already 16 bit. Copying instead.."
         (record (call_sf_open inPath SFM_READ sfinfo_uninit) w))));
      [reflexivity|].
    rewrite copyFile_open_errors. unfold open_errors. cbn. lia.
  - destruct (convert_resample_console inPath outPath this w _ _ _ H Hs) as [_ Hc].
    unfold open_errors. rewrite Hc.
    apply sf_open_read_Some in H as (Hp & _ & _).
    unfold unreadable. rewrite Hp. lia.
Qed.

(** A run leaves the current directory where it is. *)
Lemma convert_current_path inPath outPath this w :
  current_path (convert zero inPath outPath this w).2 = current_path w.
Proof.
  destruct (convert_cases inPath w) as [H|(f & i & w1 & H & [Hs|Hs])].
  - rewrite (convert_open_error _ _ _ _ H). reflexivity.
  - rewrite (convert_pass_through _ _ _ _ _ _ _ H Hs).
    apply sf_open_read_Some in H as (_ & -> & ->).
    cbn. destruct (copyFile_env inPath outPath
      (put_cout "[!] File is already 16 bit. Copying instead.."
         (record (call_sf_open inPath SFM_READ sfinfo_uninit) w))) as (_ & _ & ->).
    reflexivity.
  - run_resample H Hs. by_outcome outPath w; reflexivity.
Qed.

End EngineProperties.

(** ** The batch: [getFilePaths] and [processDirectory] *)

Lemma extension_among_In (e : string) (l : list string) :
  extension_among e l = true <-> In e l.
Proof.
  induction l as [|a l IH]; simpl; [split; [discriminate|tauto]|].
  destruct (String.eqb e a) eqn:E.
  - apply String.eqb_eq in E. split; auto.
  - apply String.eqb_neq in E. rewrite IH. split; [auto|].
    intros [H|H]; [congruence|exact H].
Qed.

Lemma hasAllowedExtension_In (p : string) :
  hasAllowedExtension p = true <-> In (fs.extension p) allowedExtensions.
Proof. apply extension_among_In. Qed.

(** The extension is read off the file name. *)
Lemma extension_of_filename (p n : string) :
  fs.filename p = n ->
  fs.extension p = fs.str (snd (fs.split_ext (fs.chars n))).
Proof.
  intros <-. unfold fs.extension, fs.filename. rewrite chars_str. reflexivity.
Qed.

(** [getFilePaths] keeps, in their order, the entries that pass its test. *)
Lemma getFilePaths_filter (w : World) (entries acc : list string) :
  getFilePaths w entries acc
  = acc ++ List.filter
             (fun e => is_regular_file w e && hasAllowedExtension e) entries.
Proof.
  revert acc. induction entries as [|e entries IH]; intros acc; simpl.
  - symmetry. apply app_nil_r.
  - destruct (is_regular_file w e && hasAllowedExtension e).
    + rewrite IH, <- app_assoc. reflexivity.
    + apply IH.
Qed.

Lemma outFilePath_current_path (w w' : World) (inPath filePath : string) :
  current_path w' = current_path w ->
  outFilePath w' inPath filePath = outFilePath w inPath filePath.
Proof. intros H. unfold outFilePath. rewrite H. reflexivity. Qed.

Section BatchProperties.

Context {sample : Type} (zero : sample).
Context {sndfile : SndFile sample} {r8b : Resampler sample}.

Lemma unreadable_files (w w' : World) (p : string) :
  files w' !! p = files w !! p -> unreadable w' p = unreadable w p.
Proof. intros H. unfold unreadable. rewrite H. reflexivity. Qed.

(** One attempt per file of the list, in the order of the list, whatever
    each attempt runs into. *)
Lemma processDirectory_loop_attempts inPath listSize rest :
  forall fileCounter conv w,
  attempts (processDirectory_loop zero inPath listSize rest fileCounter conv w).2
  = attempts w ++ rest.
Proof.
  induction rest as [|filePath rest IH]; intros k conv w; simpl.
  - symmetry. apply app_nil_r.
  - unfold processFile_to.
    destruct (convert zero filePath _ conv _) as [conv' w'] eqn:E.
    rewrite IH.
    change w' with (conv', w').2. rewrite <- E, convert_attempts.
    rewrite <- app_assoc. reflexivity.
Qed.

(** When no output lands on a file still to be converted, the open
    errors of the batch are those of the files that were unreadable
    when the batch started. *)
Lemma processDirectory_loop_open_errors inPath listSize rest :
  forall fileCounter conv w,
  (forall f g, In f rest -> In g rest -> outFilePath w inPath g <> f) ->
  open_errors (processDirectory_loop zero inPath listSize rest fileCounter conv w).2
  = (open_errors w + length (List.filter (unreadable w) rest))%nat.
Proof.
  induction rest as [|filePath rest IH]; intros k conv w Hout; simpl.
  - lia.
  - unfold processFile_to.
    set (w1 := put_cout _ w).
    set (out := outFilePath w1 inPath filePath).
    set (w2 := create_directories _ w1).
    assert (Hout0 : out = outFilePath w inPath filePath) by reflexivity.
    destruct (convert zero filePath out conv w2) as [conv' w'] eqn:E.
    assert (Hw' : w' = (convert zero filePath out conv w2).2) by (rewrite E; reflexivity).
    assert (Hcp : current_path w' = current_path w).
    { rewrite Hw', convert_current_path. reflexivity. }
    rewrite IH.
    + rewrite Hw', convert_open_errors.
      change (unreadable w2 filePath) with (unreadable w filePath).
      change (open_errors w2) with (open_errors w).
      rewrite <- Hw'.
      rewrite (List.filter_ext_in (unreadable w') (unreadable w)).
      * destruct (unreadable w filePath); simpl; lia.
      * intros f Hf. apply unreadable_files.
        rewrite Hw', convert_frame; [reflexivity|].
        rewrite Hout0. intros ->.
        apply (Hout (outFilePath w inPath filePath) filePath);
          simpl; auto.
    + intros f g Hf Hg.
      rewrite (outFilePath_current_path w w') by exact Hcp.
      apply Hout; simpl; auto.
Qed.

Lemma processDirectory_attempts inPath conv recurseMode w :
  attempts (processDirectory zero inPath conv recurseMode w).2
  = attempts w ++ getFilePaths w (listing w inPath recurseMode) [].
Proof.
  unfold processDirectory. rewrite processDirectory_loop_attempts. reflexivity.
Qed.

(** A batch in which every run returns: [processDirectory] runs
    [convert] once on each file of its list and on nothing else, in the
    order of the enumeration; when no output lands on an input of the
    batch, the open errors reported are exactly those of the files that
    were unreadable at the start. *)
Theorem processDirectory_attempts_every_file inPath conv recurseMode w :
  let fileList := getFilePaths w (listing w inPath recurseMode) [] in
  let r := processDirectory zero inPath conv recurseMode w in
  attempts r.2 = attempts w ++ fileList /\
  length (drop (length (attempts w)) (attempts r.2)) = length fileList /\
  ((forall f g, In f fileList -> In g fileList -> outFilePath w inPath g <> f) ->
   open_errors r.2
   = (open_errors w + length (List.filter (unreadable w) fileList))%nat).
Proof.
  intros fileList r. subst r. rewrite processDirectory_attempts.
  fold fileList. repeat split.
  - rewrite drop_app_length. reflexivity.
  - intros Hout. unfold processDirectory. fold fileList.
    rewrite processDirectory_loop_open_errors; [reflexivity|exact Hout].
Qed.


End BatchProperties.

(** ** The program run on concrete inputs *)

Lemma convert_open_failure_witness :
  fst (fst (sf_open "missing.wav" SFM_READ sfinfo_uninit (Toy.world []))) = None /\
  cerr (convert 0 "missing.wav" "out.wav" Toy.conv0 (Toy.world [])).2
    = ["Error opening the input file."] /\
  files (convert 0 "missing.wav" "out.wav" Toy.conv0 (Toy.world [])).2 !! "out.wav"
    = None.
Proof.
  assert (H : fst (fst (sf_open "missing.wav" SFM_READ sfinfo_uninit (Toy.world [])))
              = None) by reflexivity.
  pose proof (convert_open_failure 0 "missing.wav" "out.wav" Toy.conv0
                (Toy.world []) H) as T.
  cbv zeta in T. destruct T as (A & _ & C & _).
  split; [exact H|]. split; [exact A|]. rewrite C. reflexivity.
Defined.

Lemma convert_pcm16_copies_witness :
  let w := Toy.world [("in.wav", Toy.pcm16_24000_mono)] in
  let r := convert 0 "in.wav" "out.wav" Toy.conv0 w in
  files r.2 !! "out.wav" = Some Toy.pcm16_24000_mono /\
  calls r.2 = [call_sf_open "in.wav" SFM_READ sfinfo_uninit;
               call_sf_close (Some "in.wav")] /\
  cerr r.2 = [].
Proof.
  intros w r.
  assert (Hopen : sf_open "in.wav" SFM_READ sfinfo_uninit w
                  = (Some (mkSNDFILE "in.wav" SFM_READ
                             (mkSF_INFO 4 24000 1 65538 1 1) []),
                     mkSF_INFO 4 24000 1 65538 1 1,
                     record (call_sf_open "in.wav" SFM_READ sfinfo_uninit) w))
    by reflexivity.
  assert (Hsub : Z.land (format (mkSF_INFO 4 24000 1 65538 1 1)) SF_FORMAT_SUBMASK
                 = SF_FORMAT_PCM_16) by reflexivity.
  assert (Ho : "out.wav" ∉ deny_open w) by (vm_compute; set_solver).
  assert (Hw : "out.wav" ∉ deny_write w) by (vm_compute; set_solver).
  assert (Hne : "out.wav" <> "in.wav") by discriminate.
  pose proof (convert_pcm16_copies 0 "in.wav" "out.wav" Toy.conv0 w _ _ _
                Hopen Hsub) as T.
  cbv zeta in T. destruct T as (B & _ & T & _).
  destruct (T Ho Hw Hne) as (_ & A & _ & C). subst r.
  split; [rewrite A; reflexivity|]. split; [exact B|exact C].
Defined.

(** The stereo float source of the examples, as [sf_open] describes it. *)
Lemma float_44100_opens (w : World) :
  files w !! "in.wav" = Some Toy.float_44100 ->
  sf_open "in.wav" SFM_READ sfinfo_uninit w
  = (Some (mkSNDFILE "in.wav" SFM_READ (mkSF_INFO 3 44100 2 65542 1 1) []),
     mkSF_INFO 3 44100 2 65542 1 1,
     record (call_sf_open "in.wav" SFM_READ sfinfo_uninit) w).
Proof. intros H. unfold sf_open. cbn. rewrite H. reflexivity. Qed.

Lemma convert_declares_target_witness :
  let w := Toy.world [("in.wav", Toy.float_44100)] in
  let r := convert 0 "in.wav" "out.wav" Toy.conv0 w in
  omap opened_for_writing (calls r.2)
    = [("out.wav", mkSF_INFO 3 48000 2 0x010002 1 1)] /\
  exists items,
    files r.2 !! "out.wav"
    = Some (sf_encode (mkSF_INFO 3 48000 2 0x010002 1 1) items).
Proof.
  intros w r.
  assert (Hopen := float_44100_opens w eq_refl).
  assert (Hsub : Z.land (format (mkSF_INFO 3 44100 2 65542 1 1)) SF_FORMAT_SUBMASK
                 <> SF_FORMAT_PCM_16) by discriminate.
  assert (Ho : "out.wav" ∉ deny_open w) by (vm_compute; set_solver).
  pose proof (convert_declares_target 0 "in.wav" "out.wav" Toy.conv0 w _ _ _
                Hopen Hsub) as T.
  cbv zeta in T. destruct T as (A & _ & _ & _ & _ & B). subst r.
  split; [exact A|exact (B Ho)].
Defined.

(** C1.  A stereo float file at 44100 Hz: the resampler is built with
    48000 as its source rate and 48000 as its destination rate, because
    [sfinfo.samplerate] has been overwritten before it is read; the
    source rate 44100 reaches no call, and the items are written as they
    were read, under a descriptor that says 48000 Hz. *)
Theorem convert_resampler_source_rate_lost :
  let w := Toy.world [("in.wav", Toy.float_44100)] in
  let r := convert 0 "in.wav" "out.wav" Toy.conv0 w in
  samplerate <$> (files w !! "in.wav" ≫= sf_parse) = Some 44100 /\
  omap resampler_rates (calls r.2) = [(48000, 48000)] /\
  files r.2 !! "out.wav"
  = Some (sf_encode (mkSF_INFO 3 48000 2 0x010002 1 1) [10; 20; 30; 40; 50; 60]) /\
  sf_decode Toy.float_44100 3 = [10; 20; 30; 40; 50; 60].
Proof. vm_compute. repeat split; reflexivity. Qed.

(** C9.  A float source whose destination cannot be opened for writing,
    and one whose destination cannot be written: [convert] prints nothing
    on either stream and leaves no other trace than [wFrames = 0], a
    member nothing reads.  The same destination on the copy path is
    reported by [copyFile]. *)
Theorem convert_write_failure_unreported :
  let no_open := Toy.world_with [("in.wav", Toy.float_44100)] (fun _ _ => [])
                   ["out.wav"] [] in
  let no_write := Toy.world_with [("in.wav", Toy.float_44100)] (fun _ _ => [])
                    [] ["out.wav"] in
  let copy := Toy.world_with [("in.wav", Toy.pcm16_24000_mono)] (fun _ _ => [])
                ["out.wav"] [] in
  let r1 := convert 0 "in.wav" "out.wav" Toy.conv0 no_open in
  let r2 := convert 0 "in.wav" "out.wav" Toy.conv0 no_write in
  let r3 := convert 0 "in.wav" "out.wav" Toy.conv0 copy in
  (cerr r1.2 = [] /\ cout r1.2 = [] /\ files r1.2 !! "out.wav" = None /\
   omap write_request (calls r1.2) = [6] /\ wFrames r1.1 = 0) /\
  (cerr r2.2 = [] /\ cout r2.2 = [] /\ wFrames r2.1 = 0) /\
  cerr r3.2 = ["Error copying file: Failed to open destination file"].
Proof. vm_compute. repeat split; reflexivity. Qed.

(** ** Directory mode: where the converted tree goes *)

(** For an input path that ends with a file name, the path of the
    converted tree has the same [parent_path], and as file name that of
    the input followed by ["-SPC"].  (Where that name is ["."] or
    [".."] this is lexical only: the path [.-SPC] names a directory
    inside the input directory.) *)
Lemma convertedDir_sibling (inPath : string) :
  fs.filename inPath <> "" ->
  fs.parent_path (convertedDir inPath) = fs.parent_path inPath /\
  fs.filename (convertedDir inPath) = fs.filename inPath +:+ "-SPC".
Proof.
  intros Hf.
  assert (Hne : fs.filename_l (fs.chars inPath) <> []).
  { intros E. apply Hf. rewrite filename_unfold, E. reflexivity. }
  assert (Hc : convertedDir inPath
               = fs.str (fs.append_l (fs.parent_path_l (fs.chars inPath))
                           (fs.filename_l (fs.chars inPath) ++ fs.chars "-SPC"))).
  { unfold convertedDir, fs.append, fs.parent_path, fs.filename.
    rewrite chars_app, !chars_str. reflexivity. }
  rewrite Hc. unfold fs.parent_path, fs.filename. rewrite !chars_str.
  destruct (append_l_name (fs.parent_path_l (fs.chars inPath))
              (fs.filename_l (fs.chars inPath) ++ fs.chars "-SPC")) as [A B].
  - apply parent_path_l_shape, has_filename_relative, Hne.
  - destruct (fs.filename_l (fs.chars inPath)); [congruence|discriminate].
  - rewrite forallb_app, filename_l_no_sep. reflexivity.
  - rewrite A, B, str_app. split; reflexivity.
Qed.

(** *** The path of a file relative to the input directory *)

Lemma elements_from_name (l cur rest : list ascii) :
  forallb fs.not_sep l = true ->
  fs.elements_from cur (l ++ rest) = fs.elements_from (rev l ++ cur) rest.
Proof.
  revert cur. induction l as [|c l IH]; intros cur H; [reflexivity|].
  simpl in H. apply andb_true_iff in H as [Hc Hl].
  simpl. rewrite (not_sep_is_sep _ Hc), IH by exact Hl.
  rewrite <- app_assoc. reflexivity.
Qed.

Lemma elements_from_sep (p q cur : list ascii) :
  fs.elements_from cur (p ++ "/"%char :: q)
  = fs.elements_from cur p ++ fs.elements_from [] q.
Proof.
  revert cur. induction p as [|c p IH]; intros cur; simpl.
  - destruct cur; reflexivity.
  - destruct (fs.is_sep c); [destruct cur|]; rewrite IH; reflexivity.
Qed.

Lemma elements_of_name (n : string) :
  n <> "" -> forallb fs.not_sep (fs.chars n) = true -> fs.elements n = [n].
Proof.
  intros Hn Hs. unfold fs.elements.
  rewrite <- (app_nil_r (fs.chars n)), elements_from_name by exact Hs.
  rewrite app_nil_r. simpl.
  destruct (rev (fs.chars n)) as [|c r] eqn:E.
  - apply (f_equal (@rev ascii)) in E. rewrite rev_involutive in E.
    exfalso. apply Hn. rewrite <- (str_chars n), E. reflexivity.
  - rewrite <- E, rev_involutive, str_chars. reflexivity.
Qed.

Lemma join_cons (n : string) (l : list string) :
  l <> [] -> fs.join (n :: l) = n +:+ "/" +:+ fs.join l.
Proof. destruct l; [congruence|reflexivity]. Qed.

Lemma elements_join (l : list string) :
  Forall entry_name l -> fs.elements (fs.join l) = l.
Proof.
  induction 1 as [|n l (Hn & Hs & _) Hl IH]; [reflexivity|].
  destruct l as [|m l]; [apply elements_of_name; assumption|].
  rewrite join_cons by discriminate. unfold fs.elements.
  rewrite chars_app. change (fs.chars ("/" +:+ fs.join (m :: l)))
    with ("/"%char :: fs.chars (fs.join (m :: l))).
  rewrite elements_from_sep.
  change (fs.elements_from [] (fs.chars n)) with (fs.elements n).
  rewrite (elements_of_name n Hn Hs).
  change (fs.elements_from [] (fs.chars (fs.join (m :: l))))
    with (fs.elements (fs.join (m :: l))).
  rewrite IH. reflexivity.
Qed.

Lemma join_not_absolute (l : list string) :
  Forall entry_name l -> fs.is_absolute_l (fs.chars (fs.join l)) = false.
Proof.
  intros [|n l' (Hn & Hs & _) _]; [reflexivity|].
  assert (H : fs.is_absolute_l (fs.chars n) = false).
  { destruct n as [|c n]; [congruence|]. simpl in *.
    apply andb_true_iff in Hs as [Hc _]. apply not_sep_is_sep, Hc. }
  destruct l' as [|m l']; [exact H|].
  rewrite join_cons by discriminate. rewrite chars_app.
  destruct (fs.chars n) as [|c r] eqn:E; [|exact H].
  exfalso. apply Hn. rewrite <- (str_chars n), E. reflexivity.
Qed.

(** A path without file name is empty or ends with a separator. *)
Lemma no_filename_inv (p : list ascii) :
  fs.has_filename_l p = false ->
  p = [] \/ exists p0, p = p0 ++ ["/"%char].
Proof.
  unfold fs.has_filename_l, fs.filename_l. intros H.
  destruct (rev p) as [|c r] eqn:E.
  - left. apply (f_equal (@rev ascii)) in E. rewrite rev_involutive in E.
    exact E.
  - right. exists (rev r).
    apply (f_equal (@rev ascii)) in E. rewrite rev_involutive in E.
    simpl in E. simpl in H. destruct (fs.not_sep c) eqn:Hc.
    + simpl in H. destruct (rev (fs.take_while fs.not_sep r)); discriminate.
    + unfold fs.not_sep in Hc. apply negb_false_iff, Ascii.eqb_eq in Hc.
      subst c. exact E.
Qed.

(** The elements of [p / q] are those of [p] followed by those of [q]. *)
Lemma elements_append (p q : string) :
  fs.is_absolute_l (fs.chars q) = false ->
  fs.elements (fs.append p q) = fs.elements p ++ fs.elements q.
Proof.
  intros Hq. unfold fs.elements, fs.append, fs.append_l.
  rewrite chars_str, Hq.
  destruct (fs.has_filename_l (fs.chars p)) eqn:Hf.
  - apply elements_from_sep.
  - destruct (no_filename_inv _ Hf) as [->|[p0 ->]]; [reflexivity|].
    rewrite <- app_assoc. simpl app. rewrite !elements_from_sep.
    simpl. rewrite app_nil_r. reflexivity.
Qed.

Lemma append_absolute (p q : string) :
  fs.is_absolute_l (fs.chars q) = false -> q <> "" ->
  fs.is_absolute_l (fs.chars (fs.append p q)) = fs.is_absolute_l (fs.chars p).
Proof.
  intros Hq Hne. unfold fs.append, fs.append_l. rewrite chars_str, Hq.
  destruct (fs.chars p) as [|c r] eqn:E.
  - change (fs.has_filename_l []) with false. exact Hq.
  - destruct (fs.has_filename_l (c :: r)); reflexivity.
Qed.

Lemma normal_from_app (x y acc : list string) :
  fs.normal_from acc (x ++ y) = fs.normal_from (rev (fs.normal_from acc x)) y.
Proof.
  revert acc. induction x as [|e x IH]; intros acc; simpl.
  - rewrite rev_involutive. reflexivity.
  - destruct (String.eqb e "."); [apply IH|].
    destruct (String.eqb e ".."); apply IH.
Qed.

Lemma normal_from_names (l acc : list string) :
  Forall entry_name l -> fs.normal_from acc l = rev acc ++ l.
Proof.
  intros H. revert acc. induction H as [|n l (_ & _ & Hd & Hdd) _ IH];
    intros acc; simpl.
  - symmetry. apply app_nil_r.
  - apply String.eqb_neq in Hd, Hdd. rewrite Hd, Hdd, IH. simpl.
    rewrite <- app_assoc. reflexivity.
Qed.

Lemma mismatch_prefix (n r : list string) :
  fs.mismatch (n ++ r) n = (r, []).
Proof.
  induction n as [|x n IH]; simpl.
  - destruct r; reflexivity.
  - rewrite String.eqb_refl. exact IH.
Qed.

(** A file found under the input directory at [inPath / rel] has [rel]
    as its path relative to [inPath]. *)
Lemma relative_under (cwd inPath : string) (rel : list string) :
  rel <> [] -> Forall entry_name rel ->
  fs.relative cwd (fs.append inPath (fs.join rel)) inPath = fs.join rel.
Proof.
  intros Hne Hrel.
  assert (Hna := join_not_absolute rel Hrel).
  assert (Hj : fs.join rel <> "").
  { intros E. apply (f_equal fs.elements) in E.
    rewrite elements_join in E by exact Hrel. apply Hne, E. }
  unfold fs.relative, fs.weakly_canonical_e.
  rewrite append_absolute, elements_append, elements_join by assumption.
  assert (H : forall x, fs.lexically_relative_e
                          (fs.normal_from [] (x ++ rel)) (fs.normal_from [] x)
                        = fs.join rel).
  { intros x. rewrite normal_from_app, normal_from_names by exact Hrel.
    rewrite rev_involutive. unfold fs.lexically_relative_e.
    rewrite mismatch_prefix. destruct rel; [congruence|reflexivity]. }
  destruct (fs.is_absolute_l (fs.chars inPath)); [apply H|].
  rewrite app_assoc. apply H.
Qed.

(** Directory mode mirrors the tree: the file at [inPath / rel] is
    written to [convertedDir / rel], whatever the input path. *)
Lemma outFilePath_mirrors (w : World) (inPath : string) (rel : list string) :
  rel <> [] -> Forall entry_name rel ->
  outFilePath w inPath (fs.append inPath (fs.join rel))
  = convertedDir inPath +:+ "/" +:+ fs.join rel.
Proof.
  intros Hne Hrel. unfold outFilePath.
  rewrite relative_under by assumption.
  unfold fs.append at 1, fs.append_l.
  rewrite (join_not_absolute rel Hrel).
  assert (Hf : fs.has_filename_l (fs.chars (convertedDir inPath)) = true).
  { unfold convertedDir, fs.append, fs.has_filename_l.
    rewrite chars_str, filename_l_append.
    - unfold fs.filename. rewrite chars_app, chars_str.
      destruct (fs.filename_l (fs.chars inPath)); reflexivity.
    - unfold fs.filename. rewrite chars_app, chars_str.
      destruct (fs.filename_l (fs.chars inPath)); discriminate.
    - unfold fs.filename. rewrite chars_app, chars_str, forallb_app.
      rewrite filename_l_no_sep. reflexivity. }
  rewrite Hf, str_app.
  change (fs.str ("/"%char :: fs.chars (fs.join rel)))
    with ("/" +:+ fs.str (fs.chars (fs.join rel))).
  rewrite !str_chars. reflexivity.
Qed.

Example processDirectory_mirrors_root :
  convertedDir "root" = "root-SPC" /\
  outFilePath Toy.tree "root" "root/a/b/c.wav" = "root-SPC/a/b/c.wav" /\
  outFilePath Toy.tree "/music/root" "/music/root/a/b/c.wav"
    = "/music/root-SPC/a/b/c.wav".
Proof. vm_compute. repeat split; reflexivity. Qed.

(** C5.  The program run on a directory given with a trailing
    separator, as in [root/]: the file name of that path is empty and
    its parent is [root], so the converted tree is the directory [-SPC]
    inside the input directory, not the sibling [root-SPC], and
    [root/a/b/c.wav] is converted to [root/-SPC/a/b/c.wav].  The
    relative part [a/b/c.wav] is kept. *)
Theorem processDirectory_trailing_separator :
  let r := main 0 "root/" Toy.tree in
  r = processDirectory 0 "root/" Toy.conv0 true Toy.tree /\
  fs.filename "root/" = "" /\
  fs.parent_path "root/" = "root" /\
  convertedDir "root/" = "root/-SPC" /\
  outFilePath Toy.tree "root/" "root/a/b/c.wav" = "root/-SPC/a/b/c.wav" /\
  attempts r.2 = ["root/a/b/c.wav"; "root/bad.ogg"; "root/y.wav"] /\
  is_Some (files r.2 !! "root/-SPC/a/b/c.wav") /\
  files r.2 !! "root-SPC/a/b/c.wav" = None /\
  omap opened_for_writing (calls r.2)
    = [("root/-SPC/a/b/c.wav", mkSF_INFO 3 48000 2 0x010002 1 1)].
Proof.
  vm_compute. repeat split; try reflexivity. eexists. reflexivity.
Qed.

(** The same tree entered as [root]: three attempts, the corrupt file
    fails to open and the two others are converted and copied into the
    mirrored tree. *)
Example processDirectory_one_corrupt_file :
  let r := main 0 "root" Toy.tree in
  attempts r.2 = ["root/a/b/c.wav"; "root/bad.ogg"; "root/y.wav"] /\
  cerr r.2 = ["Error opening the input file."] /\
  cout r.2 = ["Converting.. [1/3].. root/a/b/c.wav";
              "Converting.. [2/3].. root/bad.ogg";
              "Converting.. [3/3].. root/y.wav";
              "[!] File is already 16 bit. Copying instead.."] /\
  is_Some (files r.2 !! "root-SPC/a/b/c.wav") /\
  files r.2 !! "root-SPC/bad.ogg" = None /\
  files r.2 !! "root-SPC/y.wav" = Some Toy.pcm16_24000_mono.
Proof.
  vm_compute. repeat split; try reflexivity. eexists. reflexivity.
Qed.

(** * Further properties of the code *)

(** ** Which paths are eligible *)

Lemma split_ext_stem_not_nil (f : list ascii) :
  snd (fs.split_ext f) <> [] -> fst (fs.split_ext f) <> [].
Proof.
  unfold fs.split_ext. destruct (fs.special_name f); [simpl; congruence|].
  destruct (fs.drop_while fs.not_dot (rev f)) as [|d [|c s]]; simpl;
    try congruence.
  intros _ E. apply (f_equal (@length ascii)) in E.
  rewrite length_app in E. simpl in E. lia.
Qed.

(** A name made of a non-empty stem, a period and text without period
    splits there. *)
Lemma split_ext_suffix (s e : list ascii) :
  s <> [] -> e <> [] -> forallb fs.not_dot e = true ->
  fs.split_ext (s ++ "."%char :: e) = (s, "."%char :: e).
Proof.
  intros Hs He Hnd. unfold fs.split_ext.
  rewrite special_name_long.
  - assert (Hr : rev (s ++ "."%char :: e) = rev e ++ "."%char :: rev s).
    { rewrite rev_app_distr. simpl. rewrite <- app_assoc. reflexivity. }
    assert (Hre : forallb fs.not_dot (rev e) = true)
      by (rewrite forallb_rev; exact Hnd).
    rewrite Hr, (drop_while_stop _ _ _ _ Hre not_dot_dot),
      (take_while_stop _ _ _ _ Hre not_dot_dot), rev_involutive.
    destruct (rev s) as [|c r] eqn:E.
    + apply (f_equal (@rev ascii)) in E. rewrite rev_involutive in E.
      contradiction.
    + rewrite ?rev_involutive. reflexivity.
  - rewrite length_app. simpl. destruct s; [congruence|].
    destruct e; [congruence|]. simpl. lia.
Qed.

Lemma chars_inj (s t : string) : fs.chars s = fs.chars t -> s = t.
Proof. intros H. rewrite <- (str_chars s), <- (str_chars t), H. reflexivity. Qed.

(** A path is eligible exactly when its file name is a non-empty stem
    followed by one of the four extensions: the directories of the path
    play no part, and a file whose whole name is an extension, as
    [.wav], is not eligible. *)
Theorem hasAllowedExtension_iff_name (filePath : string) :
  hasAllowedExtension filePath = true <->
  exists stem ext,
    stem <> "" /\ In ext allowedExtensions /\
    fs.filename filePath = stem +:+ ext.
Proof.
  rewrite hasAllowedExtension_In. split.
  - intros Hin. exists (fs.stem filePath), (fs.extension filePath).
    split; [|split; [exact Hin|]].
    + unfold fs.stem. intros E. apply str_nil_inv in E.
      apply (split_ext_stem_not_nil (fs.filename_l (fs.chars filePath))); [|exact E].
      intros E'. unfold fs.extension in Hin. rewrite E' in Hin.
      simpl in Hin. intuition discriminate.
    + unfold fs.stem, fs.extension, fs.filename.
      rewrite <- str_app, split_ext_app. reflexivity.
  - intros (stem & ext & Hs & Hin & Hf).
    assert (Hl : fs.filename_l (fs.chars filePath) = fs.chars stem ++ fs.chars ext).
    { rewrite <- chars_app, <- Hf. unfold fs.filename. rewrite chars_str.
      reflexivity. }
    assert (Hc : fs.chars stem <> []).
    { intros E. apply Hs. apply chars_inj. exact E. }
    unfold fs.extension. rewrite Hl.
    simpl in Hin. destruct Hin as [<-|[<-|[<-|[<-|[]]]]];
      match goal with
      | |- context [fs.chars stem ++ fs.chars ?x] =>
          let y := eval cbv in (fs.chars x) in change (fs.chars x) with y
      end;
      (rewrite split_ext_suffix; [simpl; auto 6|exact Hc|discriminate|reflexivity]).
Qed.

(** The output of single-file mode is itself an eligible input: the
    extension is kept. *)
Theorem getOutPath_still_allowed (inPath : string) :
  hasAllowedExtension inPath = true ->
  hasAllowedExtension (getOutPath inPath) = true.
Proof.
  intros H. unfold hasAllowedExtension in *.
  assert (Hdd : fs.filename inPath <> "..").
  { intros E. rewrite (extension_of_filename _ _ E) in H. discriminate. }
  assert (Hfn : fs.filename_l (fs.chars (getOutPath inPath)) = new_name_l inPath).
  { rewrite getOutPath_unfold, chars_str.
    apply filename_l_append; [apply new_name_not_nil|apply new_name_no_sep]. }
  unfold fs.extension at 1.
  rewrite Hfn, (getOutPath_split_ext inPath Hdd). exact H.
Qed.

Lemma getOutPath_still_allowed_witness :
  hasAllowedExtension "music/track.flac" = true /\
  hasAllowedExtension (getOutPath "music/track.flac") = true.
Proof.
  assert (H : hasAllowedExtension "music/track.flac" = true) by reflexivity.
  split; [exact H|exact (getOutPath_still_allowed "music/track.flac" H)].
Defined.

Lemma outFilePath_mirrors_witness :
  ["a"; "b"; "c.wav"] <> [] /\ Forall entry_name ["a"; "b"; "c.wav"] /\
  outFilePath Toy.tree "root" (fs.append "root" (fs.join ["a"; "b"; "c.wav"]))
  = "root-SPC/a/b/c.wav".
Proof.
  assert (H1 : ["a"; "b"; "c.wav"] <> ([] : list string)) by discriminate.
  assert (H2 : Forall entry_name ["a"; "b"; "c.wav"]).
  { repeat constructor; discriminate. }
  split; [exact H1|]. split; [exact H2|].
  rewrite (outFilePath_mirrors Toy.tree "root" ["a"; "b"; "c.wav"] H1 H2).
  reflexivity.
Defined.

(** ** [copyFile] on its own *)

Lemma copyFile_directories s d w :
  directories (copyFile s d w) = directories w.
Proof.
  unfold copyFile. destruct (ifstream_is_open w s); [|reflexivity].
  destruct (decide (d ∈ deny_open w)); [reflexivity|]. cbn.
  destruct (<[d:=[]]> (files w) !! s); [|reflexivity].
  destruct (decide (d ∈ deny_write w)); reflexivity.
Qed.

Lemma ifstream_is_open_directory (w : World) (p : string) :
  p ∈ directories w -> ifstream_is_open w p = true.
Proof.
  intros H. unfold ifstream_is_open, is_directory.
  rewrite (bool_decide_eq_true_2 _ H). apply orb_true_r.
Qed.

Lemma ifstream_is_open_missing (w : World) (p : string) :
  files w !! p = None -> p ∉ directories w -> ifstream_is_open w p = false.
Proof.
  intros Hf Hd. unfold ifstream_is_open, is_regular_file, is_directory.
  rewrite (bool_decide_eq_false_2 _ Hd), Hf.
  rewrite bool_decide_eq_false_2; [reflexivity|].
  intros [x Hx]. discriminate.
Qed.

(** [copyFile] for a source that is a regular file, a directory or
    missing.  A source that is missing, and a destination that cannot
    be opened, are each reported by one line, and leave every file as
    it was (an existing destination is not truncated).  A source that
    is a directory is opened: the destination is created or emptied and
    nothing is printed.  Once both streams are open nothing is ever
    printed, the write included, and the destination exists.  No other
    file, and nothing else of the world, changes. *)
Theorem copyFile_failures (sourcePath destinationPath : string) (w : World) :
  sourcePath ∉ others w ->
  let w' := copyFile sourcePath destinationPath w in
  (files w !! sourcePath = None -> sourcePath ∉ directories w ->
   files w' = files w /\
   cerr w' = cerr w ++ ["Error copying file: Failed to open source file"]) /\
  (is_Some (files w !! sourcePath) \/ sourcePath ∈ directories w ->
   destinationPath ∈ deny_open w ->
   files w' = files w /\
   cerr w' = cerr w ++ ["Error copying file: Failed to open destination file"]) /\
  (files w !! sourcePath = None -> sourcePath ∈ directories w ->
   destinationPath ∉ deny_open w ->
   files w' = <[destinationPath := []]> (files w) /\ cerr w' = cerr w) /\
  (is_Some (files w !! sourcePath) -> destinationPath ∉ deny_open w ->
   cerr w' = cerr w /\ is_Some (files w' !! destinationPath)) /\
  (forall p, p <> destinationPath -> files w' !! p = files w !! p) /\
  cout w' = cout w /\ calls w' = calls w /\ directories w' = directories w.
Proof.
  intros _ w'. subst w'.
  split; [|split; [|split; [|split; [|split]]]].
  - intros Hf Hd. unfold copyFile.
    rewrite (ifstream_is_open_missing _ _ Hf Hd). split; reflexivity.
  - intros Hs Ho. unfold copyFile.
    assert (Hopen : ifstream_is_open w sourcePath = true).
    { destruct Hs as [[b Hb]|Hd];
        [exact (ifstream_is_open_file _ _ _ Hb)
        |exact (ifstream_is_open_directory _ _ Hd)]. }
    rewrite Hopen, decide_True by exact Ho. split; reflexivity.
  - intros Hf Hd Ho. unfold copyFile.
    rewrite (ifstream_is_open_directory _ _ Hd), decide_False by exact Ho.
    cbn. destruct (decide (destinationPath = sourcePath)) as [->|Hne].
    + rewrite lookup_insert_eq.
      destruct (decide (sourcePath ∈ deny_write w)); cbn;
        rewrite ?insert_insert_eq; split; reflexivity.
    + rewrite lookup_insert_ne by exact Hne. rewrite Hf. split; reflexivity.
  - intros [b Hb] Ho. unfold copyFile.
    rewrite (ifstream_is_open_file _ _ _ Hb), decide_False by exact Ho. cbn.
    destruct (<[destinationPath:=[]]> (files w) !! sourcePath);
      [destruct (decide (destinationPath ∈ deny_write w))|]; cbn;
      rewrite ?lookup_insert_eq; split; try reflexivity; eexists; reflexivity.
  - intros p Hp. apply copyFile_frame. exact Hp.
  - split; [|split; [apply copyFile_calls|apply copyFile_directories]].
    unfold copyFile. destruct (ifstream_is_open w sourcePath); [|reflexivity].
    destruct (decide (destinationPath ∈ deny_open w)); [reflexivity|]. cbn.
    destruct (<[destinationPath:=[]]> (files w) !! sourcePath); [|reflexivity].
    destruct (decide (destinationPath ∈ deny_write w)); reflexivity.
Qed.

Section EngineExtras.

Context {sample : Type} (zero : sample).
Context {sndfile : SndFile sample} {r8b : Resampler sample}.

Ltac settle :=
  cbn -[Z.to_nat firstn overwrite sf_encode decide bool_decide orb negb];
  repeat (rewrite overwrite_length || rewrite repeat_length);
  repeat match goal with
         | |- context [to_int64 (Z.of_nat (vector_size ?i))] =>
             change (to_int64 (Z.of_nat (vector_size i))) with (buffer_size i)
         end.

Ltac resample_run H Hs :=
  rewrite (convert_resample zero _ _ _ _ _ _ _ H Hs);
  apply sf_open_read_Some in H as (? & -> & ->);
  unfold sf_readf_double, sf_open, new_CDSPResampler16, process,
    sf_write_double, sf_close, out_handle, size, write_fails;
  settle.

Ltac resample_outcome outPath w :=
  destruct (decide (outPath ∈ deny_open w)); settle;
  [|destruct (bool_decide (outPath ∈ deny_write w) || negb (sf_takes _ _));
    settle].

(** A run changes the files, the console, the record of calls and the
    members of the converter, and nothing else. *)
Lemma convert_environment inPath outPath this w :
  directories (convert zero inPath outPath this w).2 = directories w /\
  deny_open (convert zero inPath outPath this w).2 = deny_open w /\
  deny_write (convert zero inPath outPath this w).2 = deny_write w.
Proof.
  destruct (convert_cases inPath w) as [H|(f & i & w1 & H & [Hs|Hs])].
  - rewrite (convert_open_error _ _ _ _ _ H). auto.
  - rewrite (convert_pass_through _ _ _ _ _ _ _ _ H Hs).
    apply sf_open_read_Some in H as (_ & -> & ->). cbn.
    destruct (copyFile_env inPath outPath
      (put_cout "[!] File is already 16 bit. Copying instead.."
         (record (call_sf_open inPath SFM_READ sfinfo_uninit) w))) as (-> & -> & _).
    split; [|split; reflexivity].
    rewrite copyFile_directories. reflexivity.
  - resample_run H Hs. resample_outcome outPath w; auto.
Qed.

Lemma convert_pass_through_calls inPath outPath this w inFile sfinfo w1 :
  sf_open inPath SFM_READ sfinfo_uninit w = (Some inFile, sfinfo, w1) ->
  Z.land (format sfinfo) SF_FORMAT_SUBMASK = SF_FORMAT_PCM_16 ->
  calls (convert zero inPath outPath this w).2
  = calls w ++ [call_sf_open inPath SFM_READ sfinfo_uninit;
                call_sf_close (Some inPath)].
Proof.
  intros H Hs. rewrite (convert_pass_through _ _ _ _ _ _ _ _ H Hs).
  apply sf_open_read_Some in H as (_ & -> & ->).
  cbn. rewrite copyFile_calls. cbn. rewrite <- app_assoc. reflexivity.
Qed.

(** *** The runs of [convert_run] *)

Lemma convert_run_open_error inPath outPath this w :
  fst (fst (sf_open inPath SFM_READ sfinfo_uninit w)) = None ->
  convert_run zero inPath outPath this w
  = returned (convert zero inPath outPath this w).
Proof.
  intros H. unfold convert_run. rewrite (sf_open_read_None _ _ _ H). reflexivity.
Qed.

Lemma convert_run_pass_through inPath outPath this w inFile sfinfo w1 :
  sf_open inPath SFM_READ sfinfo_uninit w = (Some inFile, sfinfo, w1) ->
  Z.land (format sfinfo) SF_FORMAT_SUBMASK = SF_FORMAT_PCM_16 ->
  convert_run zero inPath outPath this w
  = returned (convert zero inPath outPath this w).
Proof.
  intros H Hs. unfold convert_run. rewrite H, Hs. reflexivity.
Qed.

Lemma convert_run_resample inPath outPath this w inFile sfinfo w1 :
  sf_open inPath SFM_READ sfinfo_uninit w = (Some inFile, sfinfo, w1) ->
  Z.land (format sfinfo) SF_FORMAT_SUBMASK <> SF_FORMAT_PCM_16 ->
  convert_run zero inPath outPath this w
  = match vector_throws w1 (requested_size sfinfo) with
    | Some e => thrown e w1
    | None => returned (convert zero inPath outPath this w)
    end.
Proof.
  intros H Hs. unfold convert_run. rewrite H.
  apply Z.eqb_neq in Hs. rewrite Hs. reflexivity.
Qed.

(** A run that returns is the run of [convert]. *)
Lemma convert_run_returned inPath outPath this w r :
  convert_run zero inPath outPath this w = returned r ->
  r = convert zero inPath outPath this w.
Proof.
  destruct (convert_cases inPath w) as [H|(f & i & w1 & H & [Hs|Hs])].
  - rewrite (convert_run_open_error _ _ _ _ H). intros [= <-]. reflexivity.
  - rewrite (convert_run_pass_through _ _ _ _ _ _ _ H Hs).
    intros [= <-]. reflexivity.
  - rewrite (convert_run_resample _ _ _ _ _ _ _ H Hs).
    destruct (vector_throws w1 (requested_size i)); [discriminate|].
    intros [= <-]. reflexivity.
Qed.

(** A run that throws has opened its source, found it not to be 16-bit
    PCM, and done nothing else. *)
Lemma convert_run_thrown inPath outPath this w e w' :
  convert_run zero inPath outPath this w = thrown e w' ->
  w' = record (call_sf_open inPath SFM_READ sfinfo_uninit) w /\
  exists sfinfo,
    files w !! inPath ≫= sf_parse = Some sfinfo /\
    Z.land (format sfinfo) SF_FORMAT_SUBMASK <> SF_FORMAT_PCM_16 /\
    vector_throws w (requested_size sfinfo) = Some e.
Proof.
  destruct (convert_cases inPath w) as [H|(f & i & w1 & H & [Hs|Hs])].
  - rewrite (convert_run_open_error _ _ _ _ H). discriminate.
  - rewrite (convert_run_pass_through _ _ _ _ _ _ _ H Hs). discriminate.
  - rewrite (convert_run_resample _ _ _ _ _ _ _ H Hs).
    apply sf_open_read_Some in H as (Hp & _ & ->).
    destruct (vector_throws _ (requested_size i)) as [e0|] eqn:Ev; [|discriminate].
    intros [= <- <-]. split; [reflexivity|].
    exists i. split; [exact Hp|]. split; [exact Hs|exact Ev].
Qed.

(** A run of [convert] that returns has closed every handle it
    obtained, once, and nothing else: no handle after a failed open of
    the source; the source on the copy path; on the other path the
    source, then the output when it could be opened.  A run that the
    allocation of the buffer ends has opened the source and closed
    nothing: the handle of the source is left open. *)
Theorem convert_closes_unless_thrown inPath outPath this w :
  match convert_run zero inPath outPath this w with
  | returned r =>
      omap closed_handle (calls r.2)
      = omap closed_handle (calls w) ++
        match files w !! inPath ≫= sf_parse with
        | None => []
        | Some sfinfo =>
            if Z.land (format sfinfo) SF_FORMAT_SUBMASK =? SF_FORMAT_PCM_16
            then [inPath]
            else inPath :: (if decide (outPath ∈ deny_open w) then [] else [outPath])
        end
  | thrown e w' =>
      calls w' = calls w ++ [call_sf_open inPath SFM_READ sfinfo_uninit] /\
      attempts w' = attempts w ++ [inPath] /\
      omap closed_handle (calls w') = omap closed_handle (calls w)
  end.
Proof.
  destruct (convert_run zero inPath outPath this w) as [r|e w'] eqn:E.
  - apply convert_run_returned in E. subst r.
    destruct (convert_cases inPath w) as [H|(f & i & w1 & H & [Hs|Hs])].
    + rewrite (convert_open_error _ _ _ _ _ H). cbn. rewrite omap_app.
      apply sf_open_unreadable in H. unfold unreadable in H.
      destruct (files w !! inPath ≫= sf_parse); [discriminate|reflexivity].
    + rewrite (convert_pass_through_calls _ _ _ _ _ _ _ H Hs), omap_app.
      apply sf_open_read_Some in H as (-> & _ & _).
      rewrite Hs. reflexivity.
    + rewrite (convert_resample_calls _ _ _ _ _ _ _ _ H Hs), omap_app.
      apply sf_open_read_Some in H as (-> & _ & _).
      apply Z.eqb_neq in Hs. rewrite Hs. unfold out_handle.
      destruct (decide (outPath ∈ deny_open w)); reflexivity.
  - apply convert_run_thrown in E as (-> & _).
    unfold attempts. cbn. rewrite !omap_app. cbn.
    rewrite app_nil_r. repeat split.
Qed.

(** The same path as source and destination, where it can be opened
    for writing.  A 16-bit PCM file is emptied, with no line on the
    error stream (the notice of the copy is printed): the destination
    is truncated when it is opened, before the source is read.  A file
    of another subformat whose buffer can be allocated is read in full
    before the output is opened, and is replaced by the container
    [convert] declares: it holds the converted items, or none when the
    write is refused or fails, and nothing is printed. *)
Theorem convert_onto_itself path this w inFile sfinfo w1 :
  sf_open path SFM_READ sfinfo_uninit w = (Some inFile, sfinfo, w1) ->
  path ∉ deny_open w ->
  (Z.land (format sfinfo) SF_FORMAT_SUBMASK = SF_FORMAT_PCM_16 ->
   exists r, convert_run zero path path this w = returned r /\
     files r.2 !! path = Some [] /\ cerr r.2 = cerr w /\
     cout r.2 = cout w ++ ["[!] File is already 16 bit. Copying instead.."]) /\
  (Z.land (format sfinfo) SF_FORMAT_SUBMASK <> SF_FORMAT_PCM_16 ->
   vector_throws w (requested_size sfinfo) = None ->
   exists r, convert_run zero path path this w = returned r /\
     files r.2 !! path
     = Some (sf_encode (declared sfinfo)
               (if write_fails path sfinfo w then []
                else firstn (Z.to_nat (buffer_size sfinfo))
                            (resampled zero path sfinfo w))) /\
     cout r.2 = cout w /\ cerr r.2 = cerr w).
Proof.
  intros H Ho. split.
  - intros Hs. eexists. split; [exact (convert_run_pass_through _ _ _ _ _ _ _ H Hs)|].
    rewrite (convert_pass_through _ _ _ _ _ _ _ _ H Hs).
    apply sf_open_read_Some in H as (Hp & -> & ->).
    destruct (files w !! path) as [bytes|] eqn:Hb; [|discriminate].
    unfold copyFile.
    rewrite (ifstream_is_open_file _ path bytes) by exact Hb.
    cbn. rewrite decide_False by exact Ho. cbn. rewrite lookup_insert_eq.
    destruct (decide (path ∈ deny_write w)); cbn;
      rewrite ?lookup_insert_eq; repeat split; reflexivity.
  - intros Hs Hv. eexists. split.
    + rewrite (convert_run_resample _ _ _ _ _ _ _ H Hs).
      apply sf_open_read_Some in H as (_ & _ & ->).
      change (vector_throws (record _ w) (requested_size sfinfo))
        with (vector_throws w (requested_size sfinfo)).
      rewrite Hv. reflexivity.
    + rewrite (convert_resample_files _ _ _ _ _ _ _ _ H Hs).
      rewrite decide_False by exact Ho.
      split; [|apply (convert_resample_console _ _ _ _ _ _ _ _ H Hs)].
      destruct (write_fails path sfinfo w); apply lookup_insert_eq.
Qed.






End EngineExtras.

(** ** Output paths have a parent directory *)









(** ** [getFilePaths] on its own *)

(** Two iterations into the same vector are one iteration over both,
    and what the vector held before stays at its front. *)
Theorem getFilePaths_app (w : World) (e1 e2 acc : list string) :
  getFilePaths w (e1 ++ e2) acc = getFilePaths w e2 (getFilePaths w e1 acc) /\
  firstn (length acc) (getFilePaths w e1 acc) = acc.
Proof.
  rewrite !getFilePaths_filter, List.filter_app, <- app_assoc.
  split; [reflexivity|]. apply take_app_length.
Qed.

(** ** The batch and the whole program *)

Lemma copyFile_cout s d w : cout (copyFile s d w) = cout w.
Proof.
  unfold copyFile. destruct (ifstream_is_open w s); [|reflexivity].
  destruct (decide (d ∈ deny_open w)); [reflexivity|]. cbn.
  destruct (<[d:=[]]> (files w) !! s); [|reflexivity].
  destruct (decide (d ∈ deny_write w)); reflexivity.
Qed.




Section BatchExtras.

Context {sample : Type} (zero : sample).
Context {sndfile : SndFile sample} {r8b : Resampler sample}.






Lemma processDirectory_loop_frame inPath listSize rest p :
  forall fileCounter conv w,
  (forall f, In f rest -> outFilePath w inPath f <> p) ->
  files (processDirectory_loop zero inPath listSize rest fileCounter conv w).2 !! p
  = files w !! p.
Proof.
  induction rest as [|filePath rest IH]; intros k conv w Hout; simpl.
  - reflexivity.
  - unfold processFile_to.
    set (w1 := put_cout _ w).
    set (out := outFilePath w1 inPath filePath).
    set (w2 := create_directories _ w1).
    destruct (convert zero filePath out conv w2) as [conv' w'] eqn:E.
    assert (Hw' : w' = (convert zero filePath out conv w2).2) by (rewrite E; reflexivity).
    assert (Hcp : current_path w' = current_path w).
    { rewrite Hw', convert_current_path. reflexivity. }
    rewrite IH.
    + rewrite Hw', convert_frame; [reflexivity|].
      intros ->. apply (Hout filePath); [left; reflexivity|reflexivity].
    + intros f Hf. rewrite (outFilePath_current_path w w') by exact Hcp.
      apply Hout. right. exact Hf.
Qed.

(** A batch changes no file but at the output paths it computes: a
    file that is the output of none of the files of the list is, after
    the batch, as it was before. *)
Theorem processDirectory_changes_only_outputs inPath conv recurseMode w p :
  (forall f, In f (getFilePaths w (listing w inPath recurseMode) []) ->
             outFilePath w inPath f <> p) ->
  files (processDirectory zero inPath conv recurseMode w).2 !! p = files w !! p.
Proof.
  intros H. unfold processDirectory.
  rewrite processDirectory_loop_frame; [reflexivity|exact H].
Qed.

(** Single-file mode runs [convert] once, on the file, and changes no
    file but the one [getOutPath] names: the input, every other file
    and the directories are as they were. *)
Theorem processFile_touches_only_its_output filePath conv w p :
  let r := processFile zero filePath conv w in
  attempts r.2 = attempts w ++ [filePath] /\
  files r.2 !! filePath = files w !! filePath /\
  (p <> getOutPath filePath -> files r.2 !! p = files w !! p) /\
  directories r.2 = directories w.
Proof.
  intros r. subst r. unfold processFile.
  split; [apply convert_attempts|].
  split; [apply convert_frame; intros E; symmetry in E;
          exact (getOutPath_fresh filePath E)|].
  split; [intros Hp; apply convert_frame, Hp|apply convert_environment].
Qed.

(** What a run does to the world does not depend on the members of the
    converter it is called on. *)
Lemma convert_ignores_members inPath outPath this this' w :
  (convert zero inPath outPath this w).2
  = (convert zero inPath outPath this' w).2.
Proof.
  destruct (convert_cases inPath w) as [H|(f & i & w1 & H & [Hs|Hs])].
  - rewrite !(convert_open_error _ _ _ _ _ H). reflexivity.
  - rewrite !(convert_pass_through _ _ _ _ _ _ _ _ H Hs). reflexivity.
  - rewrite !(convert_resample _ _ _ _ _ _ _ _ H Hs). cbv zeta.
    destruct (sf_readf_double _ _ _ _) as [[n fArray] w2].
    destruct (sf_open outPath _ _ _) as [[outFile sfinfo] w3].
    destruct (new_CDSPResampler16 _ _ _ _) as [resampler w4].
    destruct (process _ _ _ _) as [fArray' w5].
    destruct (sf_write_double _ _ _ _) as [[n' outFile'] w6].
    reflexivity.
Qed.

Lemma processDirectory_loop_ignores_members inPath listSize rest :
  forall fileCounter conv conv' w,
  (processDirectory_loop zero inPath listSize rest fileCounter conv w).2
  = (processDirectory_loop zero inPath listSize rest fileCounter conv' w).2.
Proof.
  induction rest as [|filePath rest IH]; intros k conv conv' w; simpl.
  - reflexivity.
  - unfold processFile_to.
    set (w1 := put_cout _ w).
    set (out := outFilePath w1 inPath filePath).
    set (w2 := create_directories _ w1).
    pose proof (convert_ignores_members filePath out conv conv' w2) as E.
    destruct (convert zero filePath out conv w2) as [c1 u1].
    destruct (convert zero filePath out conv' w2) as [c2 u2].
    simpl in E. subst u2. apply IH.
Qed.

(** One converter serves the whole batch, and nothing it remembers of a
    file reaches the next: the files, the console and the calls of a
    batch are the same whatever the members of the converter hold when
    the batch starts. *)
Theorem processDirectory_ignores_members inPath conv conv' recurseMode w :
  (processDirectory zero inPath conv recurseMode w).2
  = (processDirectory zero inPath conv' recurseMode w).2.
Proof. unfold processDirectory. apply processDirectory_loop_ignores_members. Qed.

End BatchExtras.

Section MainExtras.

Context {sample : Type} (zero : sample).
Context {sndfile : SndFile sample} {r8b : Resampler sample}.

(** A run prints no line of the elapsed time of its own. *)
Lemma convert_time_line inPath outPath this w :
  List.filter time_line (cout (convert zero inPath outPath this w).2)
  = List.filter time_line (cout w).
Proof.
  destruct (convert_cases inPath w) as [H|(f & i & w1 & H & [Hs|Hs])].
  - rewrite (convert_open_error _ _ _ _ _ H). reflexivity.
  - rewrite (convert_pass_through _ _ _ _ _ _ _ _ H Hs).
    apply sf_open_read_Some in H as (_ & -> & ->).
    cbn. rewrite copyFile_cout. cbn.
    rewrite List.filter_app. cbn. apply app_nil_r.
  - destruct (convert_resample_console zero inPath outPath this w _ _ _ H Hs)
      as [-> _]. reflexivity.
Qed.

(** A batch that returns is the batch of [processDirectory]. *)
Lemma processDirectory_loop_run_returned inPath listSize rest :
  forall fileCounter conv w r,
  processDirectory_loop_run zero inPath listSize rest fileCounter conv w
  = returned r ->
  r = processDirectory_loop zero inPath listSize rest fileCounter conv w.
Proof.
  induction rest as [|filePath rest IH]; intros k conv w r; simpl.
  - intros [= <-]. reflexivity.
  - unfold processFile_to_run, processFile_to.
    destruct (convert_run zero filePath _ conv _) as [[conv' w']|e w'] eqn:E;
      [|discriminate].
    apply convert_run_returned in E. rewrite <- E. apply IH.
Qed.

Lemma processDirectory_run_returned inPath conv recurseMode w r :
  processDirectory_run zero inPath conv recurseMode w = returned r ->
  r = processDirectory zero inPath conv recurseMode w.
Proof. apply processDirectory_loop_run_returned. Qed.

(** A batch that an exception ends has attempted the files of its list
    up to the one that threw, and no other. *)
Lemma processDirectory_loop_run_thrown inPath listSize rest :
  forall fileCounter conv w e w',
  processDirectory_loop_run zero inPath listSize rest fileCounter conv w
  = thrown e w' ->
  (exists done f rest',
     rest = done ++ f :: rest' /\ attempts w' = attempts w ++ done ++ [f]) /\
  List.filter time_line (cout w') = List.filter time_line (cout w).
Proof.
  induction rest as [|filePath rest IH]; intros k conv w e w'; simpl;
    [discriminate|].
  unfold processFile_to_run.
  set (w1 := put_cout _ w).
  set (out := outFilePath w1 inPath filePath).
  set (w2 := create_directories _ w1).
  assert (Hc : List.filter time_line (cout w2) = List.filter time_line (cout w)).
  { cbn. rewrite List.filter_app. cbn. apply app_nil_r. }
  destruct (convert_run zero filePath out conv w2) as [[conv' u]|e0 u] eqn:E.
  - apply convert_run_returned in E.
    assert (Hu : u = (convert zero filePath out conv w2).2) by (rewrite <- E; reflexivity).
    intros H. apply IH in H as [(done & f & rest' & -> & Ha) Ht].
    split.
    + exists (filePath :: done), f, rest'. split; [reflexivity|].
      rewrite Ha, Hu, convert_attempts. cbn. rewrite <- app_assoc. reflexivity.
    + rewrite Ht, Hu, convert_time_line. exact Hc.
  - intros [= <- <-]. apply convert_run_thrown in E as (-> & _). split.
    + exists [], filePath, rest. split; [reflexivity|].
      unfold attempts. cbn. rewrite omap_app. reflexivity.
    + exact Hc.
Qed.

(** How the program ends.  Given no argument, it dies on an invalid
    memory access before anything is done.  Given one, it runs [convert]
    on that argument alone when it is a regular file with an allowed
    extension, else on the eligible files of the directory it names,
    always enumerated recursively, else on nothing.  When every run
    returns, the program prints the line of the elapsed time last and
    returns 0, whatever happened to the conversions.  When a run
    throws, the files after it are not attempted, the line of the
    elapsed time is not printed and the runtime ends the process. *)
Theorem main_run_ends elapsed argv w :
  match argv with
  | _ :: argv1 :: _ =>
      let planned :=
        if is_regular_file w argv1 && hasAllowedExtension argv1 then [argv1]
        else if is_directory w argv1
             then getFilePaths w (listing w argv1 true) []
             else [] in
      match main_run zero elapsed argv w with
      | (exit_status n, w') =>
          n = 0 /\
          attempts w' = attempts w ++ planned /\
          last (cout w')
          = Some ("Execution Time: " +:+ pretty elapsed +:+ " microseconds")
      | (terminated e, w') =>
          (exists done f rest,
             planned = done ++ f :: rest /\
             attempts w' = attempts w ++ done ++ [f]) /\
          List.filter time_line (cout w') = List.filter time_line (cout w)
      | (segmentation_fault, _) => False
      end
  | _ => main_run zero elapsed argv w = (segmentation_fault, w)
  end.
Proof.
  destruct argv as [|argv0 [|argv1 more]]; [reflexivity|reflexivity|].
  cbv zeta. unfold main_run.
  destruct (is_regular_file w argv1 && hasAllowedExtension argv1) eqn:Hra.
  - assert (He : exists_ w argv1 = true).
    { unfold exists_. apply andb_true_iff in Hra as [-> _]. reflexivity. }
    rewrite He. unfold processFile_run.
    destruct (convert_run zero argv1 _ _ w) as [[c w']|e w'] eqn:E.
    + apply convert_run_returned in E.
      assert (Hw : w' = (convert zero argv1 (getOutPath argv1) (mkConverter 0 0 0) w).2)
        by (rewrite <- E; reflexivity).
      split; [reflexivity|]. split; [|apply last_snoc].
      cbn. rewrite Hw. apply convert_attempts.
    + apply convert_run_thrown in E as (-> & _). split.
      * exists [], argv1, []. split; [reflexivity|].
        unfold attempts. cbn. rewrite omap_app. reflexivity.
      * reflexivity.
  - destruct (is_directory w argv1) eqn:Hd.
    + assert (He : exists_ w argv1 = true).
      { unfold exists_. rewrite Hd. apply orb_true_iff. left. apply orb_true_r. }
      rewrite He.
      destruct (processDirectory_run zero argv1 _ true w) as [[c w']|e w'] eqn:E.
      * apply processDirectory_run_returned in E.
        assert (Hw : w' = (processDirectory zero argv1 (mkConverter 0 0 0) true w).2)
          by (rewrite <- E; reflexivity).
        split; [reflexivity|]. split; [|apply last_snoc].
        cbn. rewrite Hw. apply processDirectory_attempts.
      * unfold processDirectory_run in E.
        apply processDirectory_loop_run_thrown in E as [Ha Ht].
        split; [exact Ha|exact Ht].
    + destruct (exists_ w argv1);
        (split; [reflexivity|]); (split; [|apply last_snoc]);
        cbn; unfold attempts; cbn; symmetry; apply app_nil_r.
Qed.

(** Given a path that is neither an eligible regular file nor a
    directory, the program converts nothing and changes nothing; it
    prints, on the standard output, that the path does not exist when
    nothing is there, and that it is neither a regular file nor a
    directory when something is: a regular file whose extension is not
    allowed, or a socket, a FIFO or a device.  Then it prints the line
    of the elapsed time and returns 0. *)
Theorem main_refuses elapsed argv0 argv1 more w :
  is_regular_file w argv1 && hasAllowedExtension argv1 = false ->
  is_directory w argv1 = false ->
  let r := main_run zero elapsed (argv0 :: argv1 :: more) w in
  r.1 = exit_status 0 /\
  files r.2 = files w /\ directories r.2 = directories w /\
  calls r.2 = calls w /\ cerr r.2 = cerr w /\
  cout r.2
  = cout w ++
    [argv1 +:+ (if is_regular_file w argv1 || bool_decide (argv1 ∈ others w)
                then " is neither a regular file nor a directory."
                else " does not exist.");
     "Execution Time: " +:+ pretty elapsed +:+ " microseconds"].
Proof.
  intros Hra Hd r. subst r. unfold main_run, exists_.
  rewrite Hra, Hd, orb_false_r.
  destruct (is_regular_file w argv1 || bool_decide (argv1 ∈ others w));
    cbn; rewrite <- app_assoc; repeat split; reflexivity.
Qed.

End MainExtras.

(** ** Each file of a batch is converted as it would be alone *)

Section BatchAlone.

Context {sample : Type} (zero : sample).
Context {sndfile : SndFile sample} {r8b : Resampler sample}.






End BatchAlone.

(** ** The input tree is left alone *)

Lemma elements_from_seps (s b cur : list ascii) :
  forallb fs.is_sep s = true ->
  fs.elements_from cur (b ++ s) = fs.elements_from cur b.
Proof.
  revert b cur. induction s as [|c s IH]; intros b cur H.
  - rewrite app_nil_r. reflexivity.
  - simpl in H. apply andb_true_iff in H as [Hc Hs].
    apply Ascii.eqb_eq in Hc. subst c.
    rewrite elements_from_sep.
    pose proof (IH [] [] Hs) as E. simpl in E. rewrite E.
    apply app_nil_r.
Qed.

Lemma elements_from_one (n : list ascii) :
  n <> [] -> forallb fs.not_sep n = true ->
  fs.elements_from [] n = [fs.str n].
Proof.
  intros Hn Hs. rewrite <- (app_nil_r n) at 1.
  rewrite elements_from_name by exact Hs. rewrite app_nil_r. simpl.
  destruct (rev n) eqn:E.
  - apply (f_equal (@rev ascii)) in E. rewrite rev_involutive in E.
    simpl in E. congruence.
  - rewrite <- E, rev_involutive. reflexivity.
Qed.

(** A path that ends with a file name is its parent followed by that
    name. *)
Lemma elements_parent_filename_l (p : list ascii) :
  fs.filename_l p <> [] ->
  fs.elements_from [] p
  = fs.elements_from [] (fs.parent_path_l p) ++ [fs.str (fs.filename_l p)].
Proof.
  intros Hf.
  pose proof (has_filename_relative p Hf) as Hr.
  pose proof (filename_l_no_sep p) as Hns.
  unfold fs.parent_path_l. rewrite Hr.
  unfold fs.filename_l in *.
  pose proof (take_drop_while fs.not_sep (rev p)) as E.
  apply (f_equal (@rev ascii)) in E.
  rewrite rev_involutive, rev_app_distr in E.
  set (n := rev (fs.take_while fs.not_sep (rev p))) in *.
  destruct (fs.drop_while fs.not_sep (rev p)) as [|x r'] eqn:Er.
  - simpl in E. rewrite <- E. simpl.
    apply elements_from_one; assumption.
  - pose proof (drop_while_head _ _ _ _ Er) as Hx.
    unfold fs.not_sep in Hx. apply negb_false_iff in Hx.
    cbn [fs.drop_while]. rewrite Hx.
    apply Ascii.eqb_eq in Hx. subst x.
    simpl rev in E. rewrite <- app_assoc in E. simpl app in E.
    rewrite <- E, elements_from_sep, (elements_from_one n) by assumption.
    f_equal.
    pose proof (take_drop_while fs.is_sep r') as E'.
    apply (f_equal (@rev ascii)) in E'. rewrite rev_app_distr in E'.
    rewrite <- E', elements_from_seps
      by (rewrite forallb_rev; apply take_while_forallb).
    destruct (fs.drop_while fs.is_sep r'); reflexivity.
Qed.

Lemma elements_parent_filename (q : string) :
  fs.filename q <> "" ->
  fs.elements q = fs.elements (fs.parent_path q) ++ [fs.filename q].
Proof.
  intros Hf. unfold fs.elements, fs.parent_path, fs.filename.
  rewrite chars_str. apply elements_parent_filename_l.
  intros E. apply Hf. rewrite filename_unfold, E. reflexivity.
Qed.

Lemma append_SPC_neq (n : string) : n +:+ "-SPC" <> n.
Proof.
  intros E. apply (f_equal fs.chars) in E. rewrite chars_app in E.
  apply (f_equal (@length ascii)) in E. rewrite length_app in E.
  simpl in E. lia.
Qed.

(** *** Absolute and normalised, the converted directory is a sibling *)

Lemma is_absolute_l_app (a b : list ascii) :
  a <> [] -> fs.is_absolute_l (a ++ b) = fs.is_absolute_l a.
Proof. destruct a; [congruence|reflexivity]. Qed.

Lemma parent_path_l_absolute (p : list ascii) :
  fs.filename_l p <> [] ->
  fs.is_absolute_l (fs.parent_path_l p) = fs.is_absolute_l p.
Proof.
  intros Hf.
  pose proof (has_filename_relative p Hf) as Hr.
  pose proof (filename_l_no_sep p) as Hns.
  unfold fs.parent_path_l. rewrite Hr.
  unfold fs.filename_l in *.
  pose proof (take_drop_while fs.not_sep (rev p)) as E.
  apply (f_equal (@rev ascii)) in E.
  rewrite rev_involutive, rev_app_distr in E.
  set (n := rev (fs.take_while fs.not_sep (rev p))) in *.
  destruct (fs.drop_while fs.not_sep (rev p)) as [|x r'] eqn:Er.
  - simpl in E. rewrite <- E. simpl.
    destruct n as [|c n']; [congruence|].
    simpl in Hns. apply andb_true_iff in Hns as [Hc _].
    simpl. symmetry. apply not_sep_is_sep, Hc.
  - pose proof (drop_while_head _ _ _ _ Er) as Hx.
    unfold fs.not_sep in Hx. apply negb_false_iff in Hx.
    cbn [fs.drop_while]. rewrite Hx.
    simpl rev in E. rewrite <- app_assoc in E. simpl app in E.
    pose proof (take_drop_while fs.is_sep r') as E'.
    apply (f_equal (@rev ascii)) in E'. rewrite rev_app_distr in E'.
    destruct (fs.drop_while fs.is_sep r') as [|c r2] eqn:Ed.
    + simpl in E'. rewrite <- E.
      pose proof (take_while_forallb fs.is_sep r') as Ht.
      rewrite <- forallb_rev, E' in Ht.
      destruct (rev r') as [|y l]; simpl in *; [symmetry; exact Hx|].
      apply andb_true_iff in Ht as [Hy _]. symmetry. exact Hy.
    + rewrite <- E, <- E', <- app_assoc.
      symmetry. apply is_absolute_l_app.
      simpl. destruct (rev r2); discriminate.
Qed.

Lemma new_dir_name (inPath : string) :
  fs.filename inPath +:+ "-SPC" <> "" /\
  fs.is_absolute_l (fs.chars (fs.filename inPath +:+ "-SPC")) = false.
Proof.
  split; [destruct (fs.filename inPath); discriminate|].
  assert (Hs : forallb fs.not_sep (fs.chars (fs.filename inPath +:+ "-SPC")) = true).
  { rewrite chars_app, forallb_app. unfold fs.filename.
    rewrite chars_str, filename_l_no_sep. reflexivity. }
  destruct (fs.chars (fs.filename inPath +:+ "-SPC")) as [|c l]; [reflexivity|].
  simpl in Hs. apply andb_true_iff in Hs as [Hc _].
  simpl. apply not_sep_is_sep, Hc.
Qed.

Lemma convertedDir_absolute (inPath : string) :
  fs.filename inPath <> "" ->
  fs.is_absolute_l (fs.chars (convertedDir inPath))
  = fs.is_absolute_l (fs.chars inPath).
Proof.
  intros Hf. unfold convertedDir.
  destruct (new_dir_name inPath) as [Hn Ha].
  rewrite append_absolute by assumption.
  unfold fs.parent_path. rewrite chars_str. apply parent_path_l_absolute.
  intros E. apply Hf. rewrite filename_unfold, E. reflexivity.
Qed.

Lemma elements_convertedDir (inPath : string) :
  fs.elements (convertedDir inPath)
  = fs.elements (fs.parent_path inPath) ++ [fs.filename inPath +:+ "-SPC"].
Proof.
  unfold convertedDir. destruct (new_dir_name inPath) as [Hn Ha].
  rewrite elements_append by exact Ha.
  rewrite (elements_of_name _ Hn); [reflexivity|].
  rewrite chars_app, forallb_app. unfold fs.filename.
  rewrite chars_str, filename_l_no_sep. reflexivity.
Qed.

Lemma new_dir_name_plain (n : string) :
  n +:+ "-SPC" <> "." /\ n +:+ "-SPC" <> "..".
Proof.
  split; intros E; apply (f_equal fs.chars) in E; rewrite chars_app in E;
    apply (f_equal (@length ascii)) in E; rewrite length_app in E;
    simpl in E; lia.
Qed.

Lemma join_not_empty (rel : list string) :
  rel <> [] -> Forall entry_name rel -> fs.join rel <> "".
Proof.
  intros Hne Hrel E. apply (f_equal fs.elements) in E.
  rewrite elements_join in E by exact Hrel. apply Hne, E.
Qed.

Lemma normal_from_snoc (x : list string) (n : string) :
  n <> "." -> n <> ".." ->
  fs.normal_from [] (x ++ [n]) = fs.normal_from [] x ++ [n].
Proof.
  intros Hd Hdd. rewrite normal_from_app. simpl.
  apply String.eqb_neq in Hd, Hdd. rewrite Hd, Hdd.
  simpl. rewrite rev_involutive. reflexivity.
Qed.

(** The input directory, absolute and normal: its holder, then its
    name. *)
Lemma inPath_canonical (cwd inPath : string) :
  fs.filename inPath <> "" -> fs.filename inPath <> "." ->
  fs.filename inPath <> ".." ->
  fs.weakly_canonical_e cwd inPath = holder cwd inPath ++ [fs.filename inPath].
Proof.
  intros Hf Hd Hdd. unfold fs.weakly_canonical_e, holder.
  rewrite (elements_parent_filename inPath Hf).
  destruct (fs.is_absolute_l (fs.chars inPath)).
  - apply normal_from_snoc; assumption.
  - rewrite app_assoc. apply normal_from_snoc; assumption.
Qed.

(** The converted directory, absolute and normal: the same holder, then
    the name with ["-SPC"]. *)
Lemma convertedDir_canonical (cwd inPath : string) :
  fs.filename inPath <> "" ->
  fs.weakly_canonical_e cwd (convertedDir inPath)
  = holder cwd inPath ++ [fs.filename inPath +:+ "-SPC"].
Proof.
  intros Hf. unfold fs.weakly_canonical_e, holder.
  rewrite (convertedDir_absolute inPath Hf), elements_convertedDir.
  destruct (new_dir_name_plain (fs.filename inPath)) as [Hd Hdd].
  destruct (fs.is_absolute_l (fs.chars inPath)).
  - apply normal_from_snoc; assumption.
  - rewrite app_assoc. apply normal_from_snoc; assumption.
Qed.

(** The output of the file at [inPath / rel], absolute and normal. *)
Lemma outFilePath_canonical (w : World) (cwd inPath : string) (rel : list string) :
  fs.filename inPath <> "" -> rel <> [] -> Forall entry_name rel ->
  fs.weakly_canonical_e cwd (outFilePath w inPath (fs.append inPath (fs.join rel)))
  = holder cwd inPath ++ [fs.filename inPath +:+ "-SPC"] ++ rel.
Proof.
  intros Hf Hne Hrel. unfold outFilePath.
  rewrite relative_under by assumption.
  pose proof (convertedDir_canonical cwd inPath Hf) as Hc.
  unfold fs.weakly_canonical_e in *.
  rewrite append_absolute, elements_append, elements_join
    by (try apply join_not_absolute; try apply join_not_empty; assumption).
  assert (H : forall x,
             fs.normal_from [] (x ++ fs.elements (convertedDir inPath))
             = holder cwd inPath ++ [fs.filename inPath +:+ "-SPC"] ->
             fs.normal_from [] (x ++ fs.elements (convertedDir inPath) ++ rel)
             = holder cwd inPath ++ [fs.filename inPath +:+ "-SPC"] ++ rel).
  { intros x Hx. rewrite app_assoc, normal_from_app, Hx.
    rewrite normal_from_names by exact Hrel.
    rewrite rev_involutive, <- app_assoc. reflexivity. }
  destruct (fs.is_absolute_l (fs.chars (convertedDir inPath)));
    [apply (H [])|apply H]; exact Hc.
Qed.

(** For an input directory whose path ends with a name other than
    ["."] and [".."], the converted directory is its sibling: made
    absolute and normal (as [weakly_canonical] does on a file system
    without symbolic links), the two paths lie in the same directory,
    and the name of the converted one is the name of the input followed
    by ["-SPC"]. *)
Theorem convertedDir_is_sibling (cwd inPath : string) :
  fs.filename inPath <> "" -> fs.filename inPath <> "." ->
  fs.filename inPath <> ".." ->
  exists dir,
    fs.weakly_canonical_e cwd inPath = dir ++ [fs.filename inPath] /\
    fs.weakly_canonical_e cwd (convertedDir inPath)
    = dir ++ [fs.filename inPath +:+ "-SPC"].
Proof.
  intros Hf Hd Hdd. exists (holder cwd inPath). split.
  - apply inPath_canonical; assumption.
  - apply convertedDir_canonical; assumption.
Qed.

Lemma convertedDir_is_sibling_witness :
  fs.filename "music/../root" <> "" /\ fs.filename "music/../root" <> "." /\
  fs.filename "music/../root" <> ".." /\
  fs.weakly_canonical_e "/home" "music/../root" = ["home"; "root"] /\
  convertedDir "music/../root" = "music/../root-SPC" /\
  exists dir,
    fs.weakly_canonical_e "/home" (convertedDir "music/../root")
    = dir ++ ["root-SPC"] /\ dir ++ ["root"] = ["home"; "root"].
Proof.
  assert (H1 : fs.filename "music/../root" <> "") by (vm_compute; discriminate).
  assert (H2 : fs.filename "music/../root" <> ".") by (vm_compute; discriminate).
  assert (H3 : fs.filename "music/../root" <> "..") by (vm_compute; discriminate).
  destruct (convertedDir_is_sibling "/home" "music/../root" H1 H2 H3)
    as (dir & A & B).
  split; [exact H1|]. split; [exact H2|]. split; [exact H3|].
  split; [reflexivity|]. split; [reflexivity|].
  exists dir. split; [exact B|].
  transitivity (fs.weakly_canonical_e "/home" "music/../root");
    [symmetry; exact A|reflexivity].
Defined.

Section InputTree.

Context {sample : Type} (zero : sample).
Context {sndfile : SndFile sample} {r8b : Resampler sample}.

(** A batch on a directory whose path ends with a name other than
    ["."] and [".."] writes nothing in that directory (on a file system
    without symbolic links).  When the files of the list are paths
    [inPath / rel], no output is, absolute and normal, a path that lies
    in the input directory, however that path is spelled; and every
    such path, the inputs among them, holds after the batch what it
    held before. *)
Theorem processDirectory_leaves_input_tree inPath conv recurseMode w p below :
  fs.filename inPath <> "" -> fs.filename inPath <> "." ->
  fs.filename inPath <> ".." ->
  (forall f, In f (getFilePaths w (listing w inPath recurseMode) []) ->
     exists rel : list string, rel <> [] /\ Forall entry_name rel /\
                 f = fs.append inPath (fs.join rel)) ->
  fs.weakly_canonical_e (current_path w) p
  = fs.weakly_canonical_e (current_path w) inPath ++ below ->
  (forall f, In f (getFilePaths w (listing w inPath recurseMode) []) ->
     fs.weakly_canonical_e (current_path w) (outFilePath w inPath f)
     <> fs.weakly_canonical_e (current_path w) p) /\
  files (processDirectory zero inPath conv recurseMode w).2 !! p = files w !! p.
Proof.
  intros Hf Hd Hdd Hlist Hp.
  assert (Hout : forall f,
             In f (getFilePaths w (listing w inPath recurseMode) []) ->
             fs.weakly_canonical_e (current_path w) (outFilePath w inPath f)
             <> fs.weakly_canonical_e (current_path w) p).
  { intros f Hin E. destruct (Hlist f Hin) as (rel & Hne & Hrel & ->).
    rewrite outFilePath_canonical, Hp, inPath_canonical in E by assumption.
    rewrite <- !app_assoc in E. apply app_inv_head in E.
    injection E as E _. exact (append_SPC_neq _ E). }
  split; [exact Hout|].
  unfold processDirectory.
  rewrite processDirectory_loop_frame; [reflexivity|].
  intros f Hin E. apply (Hout f Hin).
  change (outFilePath w inPath f = p) in E. rewrite E. reflexivity.
Qed.

End InputTree.

Lemma processDirectory_leaves_input_tree_witness :
  fs.filename "root" <> "" /\ fs.filename "root" <> "." /\
  fs.filename "root" <> ".." /\
  (forall f, In f (getFilePaths Toy.tree (listing Toy.tree "root" true) []) ->
     exists rel : list string, rel <> [] /\ Forall entry_name rel /\
                 f = fs.append "root" (fs.join rel)) /\
  fs.weakly_canonical_e "/home" "root/a/b/c.wav"
  = fs.weakly_canonical_e "/home" "root" ++ ["a"; "b"; "c.wav"] /\
  fs.weakly_canonical_e "/home" (outFilePath Toy.tree "root" "root/a/b/c.wav")
  = ["home"; "root-SPC"; "a"; "b"; "c.wav"] /\
  files (processDirectory 0 "root" Toy.conv0 true Toy.tree).2 !! "root/a/b/c.wav"
  = Some Toy.float_44100.
Proof.
  assert (H1 : fs.filename "root" <> "") by (vm_compute; discriminate).
  assert (H2 : fs.filename "root" <> ".") by (vm_compute; discriminate).
  assert (H3 : fs.filename "root" <> "..") by (vm_compute; discriminate).
  assert (H4 : forall f,
             In f (getFilePaths Toy.tree (listing Toy.tree "root" true) []) ->
             exists rel : list string, rel <> [] /\ Forall entry_name rel /\
                         f = fs.append "root" (fs.join rel)).
  { intros f Hf. vm_compute in Hf.
    destruct Hf as [<-|[<-|[<-|[]]]];
      [exists ["a"; "b"; "c.wav"]|exists ["bad.ogg"]|exists ["y.wav"]];
      (split; [discriminate|]); (split; [|reflexivity]);
      repeat constructor; discriminate. }
  assert (H5 : fs.weakly_canonical_e (current_path Toy.tree) "root/a/b/c.wav"
               = fs.weakly_canonical_e (current_path Toy.tree) "root"
                 ++ ["a"; "b"; "c.wav"]) by reflexivity.
  destruct (processDirectory_leaves_input_tree 0 "root" Toy.conv0 true Toy.tree
              "root/a/b/c.wav" ["a"; "b"; "c.wav"] H1 H2 H3 H4 H5) as [_ T].
  split; [exact H1|]. split; [exact H2|]. split; [exact H3|].
  split; [exact H4|]. split; [exact H5|]. split; [reflexivity|].
  rewrite T. reflexivity.
Defined.

(** ** The further properties on concrete inputs *)





(** C7.  A batch of three files whose first one is of a length the
    library cannot tell ([SF_COUNT_MAX] frames): the size asked of the
    buffer is above [max_size()], the constructor throws
    [std::length_error], nothing catches it, and the batch ends there.
    The two files behind it are never attempted and have no output, and
    the program ends without the line of the elapsed time.  When that
    first file is instead too short to be a container, [convert]
    reports it and returns, and the two others are converted. *)
Theorem processDirectory_aborted_by_exception :
  let w := Endless.batch_with Endless.unknown_length in
  let v := Endless.batch_with Toy.corrupt in
  getFilePaths w (listing w "in" true) [] = ["in/a.ogg"; "in/b.wav"; "in/c.wav"] /\
  Endless.parse Endless.unknown_length
  = Some (mkSF_INFO Endless.SF_COUNT_MAX 44100 1 65542 1 1) /\
  requested_size (mkSF_INFO Endless.SF_COUNT_MAX 44100 1 65542 1 1) = 2 ^ 63 - 1 /\
  max_size = 2 ^ 60 - 1 /\
  match processDirectory_run (sndfile := Endless.sndfile) 0 "in" Toy.conv0 true w with
  | thrown e w' =>
      e = length_error /\
      attempts w' = ["in/a.ogg"] /\
      omap closed_handle (calls w') = [] /\
      files w' !! "in-SPC/a.ogg" = None /\
      files w' !! "in-SPC/b.wav" = None /\
      files w' !! "in-SPC/c.wav" = None /\
      cout w' = ["Converting.. [1/3].. in/a.ogg"] /\ cerr w' = []
  | returned _ => False
  end /\
  match main_run (sndfile := Endless.sndfile) 0 1500 ["SPConverter"; "in"] w with
  | (terminated e, w') =>
      e = length_error /\ attempts w' = ["in/a.ogg"] /\
      List.filter time_line (cout w') = []
  | _ => False
  end /\
  match processDirectory_run (sndfile := Endless.sndfile) 0 "in" Toy.conv0 true v with
  | returned r =>
      attempts r.2 = ["in/a.ogg"; "in/b.wav"; "in/c.wav"] /\
      cerr r.2 = ["Error opening the input file."] /\
      files r.2 !! "in-SPC/a.ogg" = None /\
      files r.2 !! "in-SPC/b.wav"
      = Some (sf_encode (mkSF_INFO 2 48000 2 0x010002 1 1) [10; 20; 30; 40]) /\
      files r.2 !! "in-SPC/c.wav"
      = Some (sf_encode (mkSF_INFO 2 48000 2 0x010002 1 1) [10; 20; 30; 40])
  | thrown _ _ => False
  end.
Proof. vm_compute. repeat split; reflexivity. Qed.

Lemma copyFile_failures_witness :
  ("root" ∉ others Toy.tree) /\ ("gone.wav" ∉ others Toy.tree) /\
  files Toy.tree !! "root" = None /\ "root" ∈ directories Toy.tree /\
  files (copyFile "root" "root/y.wav" Toy.tree) !! "root/y.wav" = Some [] /\
  cerr (copyFile "root" "root/y.wav" Toy.tree) = [] /\
  files (copyFile "gone.wav" "root/y.wav" Toy.tree) !! "root/y.wav"
  = Some Toy.pcm16_24000_mono /\
  cerr (copyFile "gone.wav" "root/y.wav" Toy.tree)
  = ["Error copying file: Failed to open source file"].
Proof.
  assert (H1 : "root" ∉ others Toy.tree) by (vm_compute; set_solver).
  assert (H2 : "gone.wav" ∉ others Toy.tree) by (vm_compute; set_solver).
  assert (H3 : files Toy.tree !! "root" = None) by reflexivity.
  assert (H4 : "root" ∈ directories Toy.tree)
    by (apply (proj1 (bool_decide_eq_true ("root" ∈ directories Toy.tree)));
        reflexivity).
  assert (H5 : "root/y.wav" ∉ deny_open Toy.tree) by (vm_compute; set_solver).
  assert (H6 : files Toy.tree !! "gone.wav" = None) by reflexivity.
  assert (H7 : "gone.wav" ∉ directories Toy.tree)
    by (apply (proj1 (bool_decide_eq_false ("gone.wav" ∈ directories Toy.tree)));
        reflexivity).
  pose proof (copyFile_failures "root" "root/y.wav" Toy.tree H1) as T.
  pose proof (copyFile_failures "gone.wav" "root/y.wav" Toy.tree H2) as U.
  cbv zeta in T, U.
  destruct T as (_ & _ & T & _). destruct (T H3 H4 H5) as [A B].
  destruct U as (U & _). destruct (U H6 H7) as [C D].
  split; [exact H1|]. split; [exact H2|]. split; [exact H3|]. split; [exact H4|].
  split; [rewrite A; reflexivity|]. split; [exact B|].
  split; [rewrite C; reflexivity|exact D].
Defined.


Lemma main_refuses_witness :
  let w := Toy.add_others ["root/pipe.wav"] Toy.tree in
  (is_regular_file w "root/notes.txt" && hasAllowedExtension "root/notes.txt"
   = false) /\
  is_directory w "root/notes.txt" = false /\
  cout (main_run 0 1500 ["SPConverter"; "root/notes.txt"] w).2
  = ["root/notes.txt is neither a regular file nor a directory.";
     "Execution Time: 1500 microseconds"] /\
  cout (main_run 0 1500 ["SPConverter"; "root/pipe.wav"] w).2
  = ["root/pipe.wav is neither a regular file nor a directory.";
     "Execution Time: 1500 microseconds"] /\
  cout (main_run 0 1500 ["SPConverter"; "nowhere.wav"] w).2
  = ["nowhere.wav does not exist."; "Execution Time: 1500 microseconds"].
Proof.
  intros w.
  assert (H1 : is_regular_file w "root/notes.txt"
               && hasAllowedExtension "root/notes.txt" = false) by reflexivity.
  assert (H2 : is_directory w "root/notes.txt" = false) by reflexivity.
  assert (P1 : is_regular_file w "root/pipe.wav"
               && hasAllowedExtension "root/pipe.wav" = false) by reflexivity.
  assert (P2 : is_directory w "root/pipe.wav" = false) by reflexivity.
  assert (N1 : is_regular_file w "nowhere.wav"
               && hasAllowedExtension "nowhere.wav" = false) by reflexivity.
  assert (N2 : is_directory w "nowhere.wav" = false) by reflexivity.
  pose proof (main_refuses 0 1500 "SPConverter" "root/notes.txt" [] w H1 H2) as T.
  pose proof (main_refuses 0 1500 "SPConverter" "root/pipe.wav" [] w P1 P2) as P.
  pose proof (main_refuses 0 1500 "SPConverter" "nowhere.wav" [] w N1 N2) as N.
  cbv zeta in T, P, N.
  destruct T as (_ & _ & _ & _ & _ & T).
  destruct P as (_ & _ & _ & _ & _ & P).
  destruct N as (_ & _ & _ & _ & _ & N).
  split; [exact H1|]. split; [exact H2|].
  split; [rewrite T; reflexivity|]. split; [rewrite P|rewrite N]; reflexivity.
Defined.


Lemma processDirectory_changes_only_outputs_witness :
  (forall f, In f (getFilePaths Toy.tree (listing Toy.tree "root" true) []) ->
             outFilePath Toy.tree "root" f <> "root/a/b/c.wav") /\
  files (processDirectory 0 "root" Toy.conv0 true Toy.tree).2 !! "root/a/b/c.wav"
  = Some Toy.float_44100.
Proof.
  assert (H : forall f,
             In f (getFilePaths Toy.tree (listing Toy.tree "root" true) []) ->
             outFilePath Toy.tree "root" f <> "root/a/b/c.wav").
  { intros f Hf. vm_compute in Hf.
    destruct Hf as [<-|[<-|[<-|[]]]]; vm_compute; discriminate. }
  split; [exact H|].
  rewrite (processDirectory_changes_only_outputs 0 "root" Toy.conv0 true
             Toy.tree "root/a/b/c.wav" H).
  reflexivity.
Defined.

Lemma convert_onto_itself_witness :
  let w := Toy.world [("in.wav", Toy.pcm16_24000_mono)] in
  let v := Toy.world [("in.wav", Toy.float_44100)] in
  ("in.wav" ∉ deny_open w) /\ ("in.wav" ∉ deny_open v) /\
  (exists r, convert_run 0 "in.wav" "in.wav" Toy.conv0 w = returned r /\
     files r.2 !! "in.wav" = Some [] /\
     cout r.2 = ["[!] File is already 16 bit. Copying instead.."]) /\
  (exists r, convert_run 0 "in.wav" "in.wav" Toy.conv0 v = returned r /\
     files r.2 !! "in.wav"
     = Some (sf_encode (mkSF_INFO 3 48000 2 0x010002 1 1) [10; 20; 30; 40; 50; 60])).
Proof.
  intros w v.
  assert (Hw : sf_open "in.wav" SFM_READ sfinfo_uninit w
               = (Some (mkSNDFILE "in.wav" SFM_READ
                          (mkSF_INFO 4 24000 1 65538 1 1) []),
                  mkSF_INFO 4 24000 1 65538 1 1,
                  record (call_sf_open "in.wav" SFM_READ sfinfo_uninit) w))
    by reflexivity.
  assert (Hv := float_44100_opens v eq_refl).
  assert (Ho : "in.wav" ∉ deny_open w) by (vm_compute; set_solver).
  assert (Hp : "in.wav" ∉ deny_open v) by (vm_compute; set_solver).
  pose proof (convert_onto_itself 0 "in.wav" Toy.conv0 w _ _ _ Hw Ho) as [T _].
  pose proof (convert_onto_itself 0 "in.wav" Toy.conv0 v _ _ _ Hv Hp) as [_ U].
  split; [exact Ho|]. split; [exact Hp|]. split.
  - destruct (T eq_refl) as (r & Hr & Hf & _ & Hc).
    exists r. split; [exact Hr|]. split; [exact Hf|exact Hc].
  - assert (Hs : Z.land (format (mkSF_INFO 3 44100 2 65542 1 1)) SF_FORMAT_SUBMASK
                 <> SF_FORMAT_PCM_16) by discriminate.
    destruct (U Hs eq_refl) as (r & Hr & Hf & _).
    exists r. split; [exact Hr|]. rewrite Hf. reflexivity.
Defined.

